(** * Boggle board model and word path search (boggle.py)

    Shallow embedding of [BoggleBoard] and of the board search methods of
    [BoggleGame] ([check_word_on_board], [recursive_string_search]).
    Python exceptions are the left component of [Res]; the search runs in
    a state-and-error monad whose state is the method frame: the game's
    board object and the shared, mutated [letter_list]. *)

From Stdlib Require Import Ascii String List ZArith Lia Bool Sorting.
Import ListNotations.

Open Scope Z_scope.

(** ** Python values and exceptions *)

Inductive PyExc : Type :=
| IndexError
| ValueError
| AttributeError
| InitError
| RecursionError.

Definition Res (A : Type) : Type := (PyExc + A)%type.

Definition res_bind {A B} (r : Res A) (k : A -> Res B) : Res B :=
  match r with
  | inl e => inl e
  | inr a => k a
  end.

Notation "'let!' x := r 'in' k" := (res_bind r (fun x => k))
  (at level 200, x name, r at level 100, k at level 200).

(** [l[z]] on a Python list: negative indices count from the end. *)
Definition py_index {A} (l : list A) (z : Z) : Res A :=
  let z' := if z <? 0 then z + Z.of_nat (length l) else z in
  if z' <? 0 then inl IndexError
  else match nth_error l (Z.to_nat z') with
       | Some x => inr x
       | None => inl IndexError
       end.

(** [str.isalpha()]: non-empty and every character a letter. *)
Definition is_alpha_char (c : ascii) : bool :=
  let n := nat_of_ascii c in
  ((65 <=? n) && (n <=? 90))%nat || ((97 <=? n) && (n <=? 122))%nat.

Definition py_isalpha (s : string) : bool :=
  match list_ascii_of_string s with
  | [] => false
  | cs => forallb is_alpha_char cs
  end.

(** [enumerate(l)] started at index [k]. *)
Fixpoint enumerate_from {A} (k : Z) (l : list A) : list (Z * A) :=
  match l with
  | [] => []
  | x :: l' => (k, x) :: enumerate_from (k + 1) l'
  end.

Definition enumerate {A} (l : list A) : list (Z * A) := enumerate_from 0 l.

(** [range(0, n, step)]. *)
Definition py_range0 (n step : Z) : Res (list Z) :=
  if step =? 0 then inl ValueError
  else if step <? 0 then inr []
  else inr (map (fun k => Z.of_nat k * step)
                (seq 0 (Z.to_nat ((n + step - 1) / step)))).

(** [l[a:b]] for [0 <= a <= b]. *)
Definition py_slice {A} (l : list A) (a b : Z) : list A :=
  firstn (Z.to_nat (b - a)) (skipn (Z.to_nat a) l).

(** Python dict assignment [d[k] = v] on an insertion-ordered dict. *)
Definition dict_set {K V} (eqb : K -> K -> bool) (d : list (K * V)) (k : K) (v : V)
  : list (K * V) :=
  if existsb (fun kv => eqb (fst kv) k) d
  then map (fun kv => if eqb (fst kv) k then (fst kv, v) else kv) d
  else d ++ [(k, v)].

(** ** BoggleBoard *)

Definition pos : Type := (Z * Z)%type.

Definition pos_eqb (p q : pos) : bool :=
  (fst p =? fst q) && (snd p =? snd q).

Record BoggleBoard : Type := mkBoggleBoard {
  size : Z;
  letter_list : list ascii;
  board : list (list ascii);
  letters : string
}.

(** The [size] keyword argument: an [int] or any other Python object. *)
Inductive SizeArg : Type :=
| SizeInt (z : Z)
| SizeNonInt.

(** [build_letter_list]; [choice k] is the k-th weighted random draw of
    [random.choice(char_choices)]. *)
Definition build_letter_list (sz : Z) (letters_arg : option string)
  (choice : nat -> ascii) : list ascii :=
  match letters_arg with
  | Some s =>
      if negb (String.eqb s EmptyString) then list_ascii_of_string s
      else map choice (seq 0 (Z.to_nat (sz ^ 2)))
  | None => map choice (seq 0 (Z.to_nat (sz ^ 2)))
  end.

(** [build_board]: rows [letter_list[i:i+size]] for [i in range(0, len, size)]. *)
Definition build_board (sz : Z) (ll : list ascii) : Res (list (list ascii)) :=
  let! starts := py_range0 (Z.of_nat (length ll)) sz in
  inr (map (fun i => py_slice ll i (i + sz)) starts).

(** [BoggleBoard.__init__] with keyword arguments [size] and [letters]. *)
Definition BoggleBoard_init (size_arg : option SizeArg) (letters_arg : option string)
  (choice : nat -> ascii) : Res BoggleBoard :=
  let! sz := match size_arg with
             | None => inr 5
             | Some (SizeInt z) => inr z
             | Some SizeNonInt => inl InitError
             end in
  let! _ := match letters_arg with
            | None => inr tt
            | Some s =>
                if negb (py_isalpha s) then inl InitError
                else if negb (Z.of_nat (length (list_ascii_of_string s)) =? sz ^ 2)
                then inl InitError
                else inr tt
            end in
  let ll := build_letter_list sz letters_arg choice in
  let! b := build_board sz ll in
  inr (mkBoggleBoard sz ll b (string_of_list_ascii ll)).

(** [build_neighbor_map]: the dict from compass labels to positions. *)
Definition build_neighbor_map (sz i_row j_col : Z) : list (string * option pos) :=
  let idx_edge := sz - 1 in
  [ ("left"%string,         if 0 <? j_col then Some (i_row, j_col - 1) else None);
    ("right"%string,        if j_col <? idx_edge then Some (i_row, j_col + 1) else None);
    ("up"%string,           if 0 <? i_row then Some (i_row - 1, j_col) else None);
    ("down"%string,         if i_row <? idx_edge then Some (i_row + 1, j_col) else None);
    ("d-up-left"%string,    if (0 <? i_row) && (0 <? j_col)
                            then Some (i_row - 1, j_col - 1) else None);
    ("d-up-right"%string,   if (0 <? i_row) && (j_col <? idx_edge)
                            then Some (i_row - 1, j_col + 1) else None);
    ("d-down-left"%string,  if (i_row <? idx_edge) && (0 <? j_col)
                            then Some (i_row + 1, j_col - 1) else None);
    ("d-down-right"%string, if (i_row <? idx_edge) && (j_col <? idx_edge)
                            then Some (i_row + 1, j_col + 1) else None) ].

Definition get_letter_at_position (bb : BoggleBoard) (i_row j_col : Z) : Res ascii :=
  let! row := py_index (board bb) i_row in
  py_index row j_col.

Fixpoint nn_fill (bb : BoggleBoard) (nn_data : list (pos * ascii))
  (neighbor_positions : list (option pos)) : Res (list (pos * ascii)) :=
  match neighbor_positions with
  | [] => inr nn_data
  | None :: rest => nn_fill bb nn_data rest
  | Some t_pos :: rest =>
      let! c := get_letter_at_position bb (fst t_pos) (snd t_pos) in
      nn_fill bb (dict_set pos_eqb nn_data t_pos c) rest
  end.

(** [nearest_neighbor_data]: dict [{(i,j): letter}] in compass order. *)
Definition nearest_neighbor_data (bb : BoggleBoard) (i_row j_col : Z)
  : Res (list (pos * ascii)) :=
  nn_fill bb [] (map snd (build_neighbor_map (size bb) i_row j_col)).

(** The objects whose attribute [values] is looked up: a dict, or a bound
    method (which has no such attribute). *)
Inductive PyObj : Type :=
| DictObj (d : list (pos * ascii))
| BoundMethod (name : string).

Definition getattr_values (o : PyObj) : Res (list ascii) :=
  match o with
  | DictObj d => inr (map snd d)
  | BoundMethod _ => inl AttributeError
  end.

(** [nearest_neighbor_letters]: [self.nearest_neighbor_data.values()]. *)
Definition nearest_neighbor_letters (bb : BoggleBoard) (i_row j_col : Z) : Res (list ascii) :=
  getattr_values (BoundMethod "nearest_neighbor_data").

(** [positions_for_letter]: row-major scan of the board. *)
Definition positions_for_letter (bb : BoggleBoard) (letter : ascii) : list pos :=
  flat_map (fun irow =>
              flat_map (fun jc => if Ascii.eqb (snd jc) letter
                                  then [(fst irow, fst jc)] else [])
                       (enumerate (snd irow)))
           (enumerate (board bb)).

(** ** BoggleGame search: state-and-error monad over the method frame *)

(** The frame of [check_word_on_board]: [self.board] and the list object
    [letter_list], which [recursive_string_search] receives by reference
    and pops in place. *)
Record Frame : Type := mkFrame {
  self_board : BoggleBoard;
  frame_letters : list ascii
}.

Definition M (A : Type) : Type := Frame -> Res (A * Frame).

Definition ret {A} (a : A) : M A := fun fr => inr (a, fr).

Definition bind {A B} (m : M A) (k : A -> M B) : M B :=
  fun fr => match m fr with
            | inl e => inl e
            | inr (a, fr') => k a fr'
            end.

Notation "x <- m ;; k" := (bind m (fun x => k))
  (at level 61, m at next level, right associativity).

Definition lift {A} (r : Res A) : M A :=
  fun fr => match r with
            | inl e => inl e
            | inr a => inr (a, fr)
            end.

Definition raise {A} (e : PyExc) : M A := fun _ => inl e.

Definition get_board : M BoggleBoard := fun fr => inr (self_board fr, fr).

(** [letter_list.pop(0)] *)
Definition pop_front : M ascii :=
  fun fr => match frame_letters fr with
            | [] => inl IndexError
            | c :: l => inr (c, mkFrame (self_board fr) l)
            end.

(** [letter_list[0]] *)
Definition index_front : M ascii :=
  fun fr => match frame_letters fr with
            | [] => inl IndexError
            | c :: _ => inr (c, fr)
            end.

(** [len(letter_list)] *)
Definition len_letters : M nat := fun fr => inr (length (frame_letters fr), fr).

(** Python's [True]/[False]/[None] result of the search methods. *)
Definition PyBool : Type := option bool.

Definition truthy (b : PyBool) : bool :=
  match b with Some true => true | _ => false end.

(** Depth bound standing for Python's recursion limit. *)
Definition recursion_limit : nat := 1000.

(** [recursive_string_search]; [depth] is the remaining call depth. *)
Fixpoint recursive_string_search (depth : nat) (i_row j_col : Z) : M PyBool :=
  match depth with
  | O => raise RecursionError
  | S depth' =>
      _ <- pop_front ;;
      next_letter <- index_front ;;
      bb <- get_board ;;
      nn_data <- lift (nearest_neighbor_data bb i_row j_col) ;;
      if negb (existsb (fun l => Ascii.eqb l next_letter) (map snd nn_data))
      then ret (Some false)
      else
        (fix try_neighbors (items : list (pos * ascii)) : M PyBool :=
           match items with
           | [] => ret None
           | (t_pos, letter) :: rest =>
               if Ascii.eqb letter next_letter then
                 n <- len_letters ;;
                 if (n =? 1)%nat then ret (Some true)
                 else recursive_string_search depth' (fst t_pos) (snd t_pos)
               else try_neighbors rest
           end) nn_data
  end.

(** The [for (i_row, j_col) in start_positions] loop. *)
Fixpoint try_starts (start_positions : list pos) (status : PyBool) : M PyBool :=
  match start_positions with
  | [] => ret status
  | (i_row, j_col) :: rest =>
      status' <- recursive_string_search recursion_limit i_row j_col ;;
      if truthy status' then ret status' else try_starts rest status'
  end.

Definition check_word_body : M PyBool :=
  first <- index_front ;;
  bb <- get_board ;;
  let start_positions := positions_for_letter bb first in
  if (length start_positions =? 0)%nat then ret (Some false)
  else try_starts start_positions (Some false).

(** [BoggleGame.check_word_on_board]: runs on [self.board] with a fresh
    [letter_list = list(word)]; returns the result and [self.board] after
    the call. *)
Definition check_word_on_board (bb : BoggleBoard) (word : string)
  : Res (PyBool * BoggleBoard) :=
  match check_word_body (mkFrame bb (list_ascii_of_string word)) with
  | inl e => inl e
  | inr (r, fr) => inr (r, self_board fr)
  end.

(** Result of [check_word_on_board] only. *)
Definition can_trace (bb : BoggleBoard) (word : string) : Res PyBool :=
  match check_word_on_board bb word with
  | inl e => inl e
  | inr (r, _) => inr r
  end.

(** ** Traces: paths of pairwise-adjacent in-bounds cells spelling a word *)

(** The non-[None] entries of a list of optional positions, in order. *)
Definition somes (l : list (option pos)) : list pos :=
  flat_map (fun o => match o with Some p => [p] | None => [] end) l.

(** The valid neighbors of a cell, in compass order. *)
Definition neighbor_positions (sz i_row j_col : Z) : list pos :=
  somes (map snd (build_neighbor_map sz i_row j_col)).

Definition in_bounds (sz : Z) (p : pos) : bool :=
  (0 <=? fst p) && (fst p <? sz) && (0 <=? snd p) && (snd p <? sz).

Definition letter_is (bb : BoggleBoard) (p : pos) (c : ascii) : bool :=
  in_bounds (size bb) p &&
  match get_letter_at_position bb (fst p) (snd p) with
  | inr c' => Ascii.eqb c' c
  | inl _ => false
  end.

Fixpoint is_trace (bb : BoggleBoard) (w : list ascii) (path : list pos) : bool :=
  match w, path with
  | [c], [p] => letter_is bb p c
  | c :: (_ :: _) as w', p :: ((q :: _) as path') =>
      letter_is bb p c
      && existsb (pos_eqb q) (neighbor_positions (size bb) (fst p) (snd p))
      && is_trace bb w' path'
  | _, _ => false
  end.

(** Boards built from a letter string by [BoggleBoard(letters=..., size=...)]. *)
Definition board_of (sz : Z) (s : string) : Res BoggleBoard :=
  BoggleBoard_init (Some (SizeInt sz)) (Some s) (fun _ => "e"%char).

Definition rows_of (sz : Z) (s : string) : list (list ascii) :=
  match build_board sz (list_ascii_of_string s) with
  | inr b => b
  | inl _ => []
  end.

Definition square_board (sz : Z) (s : string) : BoggleBoard :=
  mkBoggleBoard sz (list_ascii_of_string s) (rows_of sz s) s.

Definition cats_board : BoggleBoard := square_board 4 "catsoxxxxxxxxxxx".

(** Two [a] cells; only the second one has a [b] neighbor. *)
Definition two_a_board : BoggleBoard := square_board 3 "axxxxxxab".

(** The first [b] neighbor of the single [a] is a dead end, the second is not. *)
Definition dead_end_board : BoggleBoard := square_board 3 "abxbxxcxx".

(** A single [a] next to a [b]. *)
Definition aba_board : BoggleBoard := square_board 2 "abxx".

(** Corner, edge and interior cells of an [N x N] grid. *)
Definition on_border (N k : Z) : bool := (k =? 0) || (k =? N - 1).

Definition expected_neighbor_count (N i j : Z) : nat :=
  if on_border N i && on_border N j then 3
  else if on_border N i || on_border N j then 5
  else 8.

(** Row-major (lexicographic) order on positions. *)
Definition pos_lt (p q : pos) : Prop :=
  fst p < fst q \/ (fst p = fst q /\ snd p < snd q).

(** ** BoggleBoard.show *)

(** [s * n] for a string and an int ([""] when [n <= 0]). *)
Fixpoint str_repeat (s : string) (n : nat) : string :=
  match n with
  | O => EmptyString
  | S n' => String.append s (str_repeat s n')
  end.

(** [" " + c + " "] joined over a row. *)
Definition row_chars (row : list ascii) : string :=
  fold_right (fun c acc => String.append (String " " (String c (String " " EmptyString))) acc)
             EmptyString row.

(** ["| %s |" % row_chars] *)
Definition show_row (row : list ascii) : string :=
  String.append "| "%string (String.append (row_chars row) " |"%string).

(** The lines printed by [show]. *)
Definition show (bb : BoggleBoard) : list string :=
  let horiz_tile_count := 3 * size bb + 4 in
  let border := str_repeat "-"%string (Z.to_nat horiz_tile_count) in
  [border] ++ map show_row (board bb) ++ [border].

(** ** BoggleGame: dictionary check, scoring and the scored-word dict *)

(** Exceptions of the game layer: those of the board layer, and the
    [TypeError]s of [in] on a non-container and of [dict.update(None)]. *)
Inductive GameExc : Type :=
| PyErr (e : PyExc)
| TypeError.

Definition GRes (A : Type) : Type := (GameExc + A)%type.

Set Warnings "-register-all".

(** Decoded JSON values of a dictionary-API response. *)
Inductive json : Type :=
| JNull
| JBool (b : bool)
| JNum (z : Z)
| JStr (s : string)
| JList (l : list json)
| JObj (kvs : list (string * json)).

Fixpoint is_prefix (a b : list ascii) : bool :=
  match a, b with
  | [], _ => true
  | x :: a', y :: b' => Ascii.eqb x y && is_prefix a' b'
  | _ :: _, [] => false
  end.

(** [a in b] on strings: [a] is a substring of [b]. *)
Fixpoint is_substring (a b : list ascii) : bool :=
  is_prefix a b ||
  match b with
  | [] => false
  | _ :: b' => is_substring a b'
  end.

(** [needle in hay] for a string [needle]. *)
Definition py_in (needle : string) (hay : json) : GRes bool :=
  match hay with
  | JObj kvs => inr (existsb (fun kv => String.eqb (fst kv) needle) kvs)
  | JStr s => inr (is_substring (list_ascii_of_string needle) (list_ascii_of_string s))
  | JList l => inr (existsb (fun v => match v with
                                      | JStr s => String.eqb s needle
                                      | _ => false
                                      end) l)
  | _ => inl TypeError
  end.

(** [hay[key]] for a string [key]; a decoded JSON object keeps the last
    value of a repeated key. *)
Definition py_getitem (hay : json) (key : string) : GRes json :=
  match hay with
  | JObj kvs =>
      match find (fun kv => String.eqb (fst kv) key) (rev kvs) with
      | Some kv => inr (snd kv)
      | None => inl (PyErr IndexError)
      end
  | _ => inl TypeError
  end.

Notation "'let?' x := r 'in' k" :=
  (match r with inl e => inl e | inr x => k end)
  (at level 200, x name, r at level 100, k at level 200).

(** [__is_in_dictionary], from the decoded response [l_resp] of the API
    request for [word] (the request itself is not modelled). *)
Definition is_in_dictionary (word : string) (l_resp : list json) : GRes bool :=
  match py_index l_resp 0 with
  | inl e => inl (PyErr e)
  | inr o_resp =>
      match o_resp with
      | JObj _ =>
          let? has_meta := py_in "meta" o_resp in
          if has_meta then
            let? meta := py_getitem o_resp "meta" in
            let? has_id := py_in "id" meta in
            if has_id then
              let? id := py_getitem meta "id" in
              py_in word id
            else inr false
          else inr false
      | _ => inr false
      end
  end.

(** [is_playable_word]: [word] is a [str] in this model. *)
Definition is_playable_word (word : string) (l_resp : list json) : GRes bool :=
  let status := true in
  let status := if (length (list_ascii_of_string word) <? 2)%nat then false else status in
  let? status := is_in_dictionary word l_resp in
  inr status.

Definition word_length_score (n : nat) : option Z :=
  match n with
  | 2%nat => Some 2
  | 3%nat => Some 5
  | 4%nat => Some 6
  | 5%nat => Some 8
  | _ => None
  end.

Definition max_score : Z := 10.

(** [score = word_length_score.get(len(list(word)), None); if not score: score = max_score] *)
Definition word_score (word : string) : Z :=
  match word_length_score (length (list_ascii_of_string word)) with
  | Some s => if s =? 0 then max_score else s
  | None => max_score
  end.

Record BoggleGame : Type := mkBoggleGame {
  game_board : BoggleBoard;
  scored_words : list (string * Z)
}.

(** Game methods: the game object persists when an exception is raised. *)
Definition GM (A : Type) : Type := BoggleGame -> GRes A * BoggleGame.

(** [play_word]; [dict_api w] is the decoded API response for [w]. *)
Definition play_word (dict_api : string -> list json) (word : string)
  : GM (option (list (string * Z))) :=
  fun g =>
    match is_playable_word word (dict_api word) with
    | inl e => (inl e, g)
    | inr false => (inr None, g)
    | inr true =>
        match check_word_on_board (game_board g) word with
        | inl e => (inl (PyErr e), g)
        | inr (on_board, bb) =>
            let g := mkBoggleGame bb (scored_words g) in
            if truthy on_board then
              let score := word_score word in
              (inr (Some [(word, score)]),
               mkBoggleGame (game_board g)
                            (dict_set String.eqb (scored_words g) word score))
            else (inr None, g)
        end
    end.

(** [dict.update(d)]; [None] is not iterable. *)
Definition dict_update (acc : list (string * Z)) (d : option (list (string * Z)))
  : GRes (list (string * Z)) :=
  match d with
  | None => inl TypeError
  | Some kvs => inr (fold_left (fun a kv => dict_set String.eqb a (fst kv) (snd kv)) kvs acc)
  end.

Fixpoint play_words (dict_api : string -> list json) (word_list : list string)
  (all_results : list (string * Z)) : GM (list (string * Z)) :=
  fun g =>
    match word_list with
    | [] => (inr all_results, g)
    | word :: rest =>
        match play_word dict_api word g with
        | (inl e, g') => (inl e, g')
        | (inr d_result, g') =>
            match dict_update all_results d_result with
            | inl e => (inl e, g')
            | inr all_results' => play_words dict_api rest all_results' g'
            end
        end
    end.

(** [play_word_list] *)
Definition play_word_list (dict_api : string -> list json) (word_list : list string)
  : GM (list (string * Z)) :=
  play_words dict_api word_list [].

Definition current_words (g : BoggleGame) : list string := map fst (scored_words g).

Definition current_score (g : BoggleGame) : Z :=
  fold_right (fun kv acc => snd kv + acc) 0 (scored_words g).

(** Python dict lookup [d.get(k)]. *)
Definition dict_get (d : list (string * Z)) (k : string) : option Z :=
  match find (fun kv => String.eqb (fst kv) k) d with
  | Some kv => Some (snd kv)
  | None => None
  end.

(** A board on which [check_word_on_board] accepts a word through the
    shared, already-popped [letter_list]. *)
Definition shifted_board : BoggleBoard := square_board 3 "axxxxxacb".

(** A dictionary-API response whose first entry carries [meta.id = s]. *)
Definition meta_id_response (s : string) : json :=
  JObj [("meta"%string, JObj [("id"%string, JStr s)])].

(** A dictionary API that knows the word [cat] only. *)
Definition cat_api (w : string) : list json :=
  if String.eqb w "cat" then [meta_id_response "cat:1"] else [JStr "cot"].

(** Every entry of [scored_words] holds the score of its word. *)
Definition scores_consistent (g : BoggleGame) : Prop :=
  Forall (fun kv => snd kv = word_score (fst kv)) (scored_words g).

(** * Proofs *)

(** ** The search only reads [self.board] *)

Definition keeps_board {A} (m : M A) : Prop :=
  forall fr a fr', m fr = inr (a, fr') -> self_board fr' = self_board fr.

Lemma keeps_board_ret {A} (a : A) : keeps_board (ret a).
Proof. intros fr x fr' H; unfold ret in H; congruence. Qed.

Lemma keeps_board_raise {A} (e : PyExc) : keeps_board (A:=A) (raise e).
Proof. intros fr x fr' H; discriminate. Qed.

Lemma keeps_board_lift {A} (r : Res A) : keeps_board (lift r).
Proof. intros fr x fr' H; unfold lift in H; destruct r; congruence. Qed.

Lemma keeps_board_get : keeps_board get_board.
Proof. intros fr x fr' H; unfold get_board in H; congruence. Qed.

Lemma keeps_board_pop : keeps_board pop_front.
Proof.
  intros [b l] x fr' H; unfold pop_front in H; simpl in H.
  destruct l; [discriminate|].
  injection H as _ <-; reflexivity.
Qed.

Lemma keeps_board_index : keeps_board index_front.
Proof.
  intros [b l] x fr' H; unfold index_front in H; simpl in H.
  destruct l; congruence.
Qed.

Lemma keeps_board_len : keeps_board len_letters.
Proof. intros fr x fr' H; unfold len_letters in H; congruence. Qed.

Lemma keeps_board_bind {A B} (m : M A) (k : A -> M B) :
  keeps_board m -> (forall a, keeps_board (k a)) -> keeps_board (bind m k).
Proof.
  intros Hm Hk fr b fr' H; unfold bind in H.
  destruct (m fr) as [e|[a fr1]] eqn:E; [discriminate|].
  rewrite (Hk a fr1 b fr' H); exact (Hm fr a fr1 E).
Qed.

Lemma keeps_board_if {A} (c : bool) (m1 m2 : M A) :
  keeps_board m1 -> keeps_board m2 -> keeps_board (if c then m1 else m2).
Proof. destruct c; auto. Qed.

Create HintDb frame.
#[export] Hint Resolve keeps_board_ret keeps_board_raise keeps_board_lift
  keeps_board_get keeps_board_pop keeps_board_index keeps_board_len
  keeps_board_bind keeps_board_if : frame.

Lemma keeps_board_rss : forall depth i j,
  keeps_board (recursive_string_search depth i j).
Proof.
  induction depth as [|depth IH]; intros i j; simpl; [auto with frame|].
  repeat (apply keeps_board_bind; [auto with frame|intro]).
  apply keeps_board_if; [auto with frame|].
  match goal with |- keeps_board (_ ?l) => induction l as [|[t_pos c] rest IHl] end;
    [auto with frame|].
  apply keeps_board_if; [|exact IHl].
  apply keeps_board_bind; [auto with frame|intro].
  apply keeps_board_if; auto with frame.
Qed.

Lemma keeps_board_try_starts : forall starts status,
  keeps_board (try_starts starts status).
Proof.
  induction starts as [|[i j] rest IH]; intros status; cbn [try_starts];
    [auto with frame|].
  apply keeps_board_bind; [apply keeps_board_rss|intro].
  apply keeps_board_if; auto with frame.
Qed.

Lemma keeps_board_check_body : keeps_board check_word_body.
Proof.
  unfold check_word_body.
  repeat (apply keeps_board_bind; [auto with frame|intro]).
  apply keeps_board_if; [auto with frame|apply keeps_board_try_starts].
Qed.

(** [C7] CanTrace never mutates the grid: the board object after
    [check_word_on_board] is the one before, and calling it again with the
    same word gives the same result. *)
Theorem check_word_frame_idempotent (bb bb' : BoggleBoard) (word : string) (r : PyBool)
  (H : check_word_on_board bb word = inr (r, bb')) :
  bb' = bb /\ check_word_on_board bb' word = inr (r, bb').
Proof.
  unfold check_word_on_board in *.
  destruct (check_word_body (mkFrame bb (list_ascii_of_string word))) as [e|[r0 fr]] eqn:E;
    [discriminate|].
  injection H as <- <-.
  pose proof (keeps_board_check_body _ _ _ E) as Hb; simpl in Hb.
  rewrite Hb, E, Hb. split; reflexivity.
Qed.

Lemma check_word_frame_idempotent_witness :
  check_word_on_board cats_board "cat" = inr (Some true, cats_board) /\
  cats_board = cats_board /\
  check_word_on_board cats_board "cat" = inr (Some true, cats_board).
Proof.
  assert (H : check_word_on_board cats_board "cat" = inr (Some true, cats_board))
    by (vm_compute; reflexivity).
  split; [exact H|].
  exact (check_word_frame_idempotent cats_board cats_board "cat" (Some true) H).
Defined.

(** ** Concrete boards *)

(** [C6] Scenarios 1-3 on the grid [catsoxxxxxxxxxxx] (size 4): "cat" and
    "cats" are traced along the first row, "cot" is not traceable. *)
Theorem cats_board_scenarios :
  board_of 4 "catsoxxxxxxxxxxx" = inr cats_board /\
  board cats_board = [["c";"a";"t";"s"]; ["o";"x";"x";"x"];
                      ["x";"x";"x";"x"]; ["x";"x";"x";"x"]]%char /\
  can_trace cats_board "cat" = inr (Some true) /\
  is_trace cats_board ["c";"a";"t"]%char [(0,0); (0,1); (0,2)] = true /\
  can_trace cats_board "cats" = inr (Some true) /\
  is_trace cats_board ["c";"a";"t";"s"]%char [(0,0); (0,1); (0,2); (0,3)] = true /\
  can_trace cats_board "cot" = inr (Some false).
Proof. vm_compute. repeat split. Qed.

(** [C1] With two occurrences of the first letter, the failed attempt from
    the first one pops the shared [letter_list]; the attempt from the
    second occurrence then indexes an empty list and raises [IndexError],
    although the word is traceable from that second occurrence. *)
Theorem second_start_index_error :
  board_of 3 "axxxxxxab" = inr two_a_board /\
  positions_for_letter two_a_board "a"%char = [(0,0); (2,1)] /\
  is_trace two_a_board ["a";"b"]%char [(2,1); (2,2)] = true /\
  check_word_body (mkFrame two_a_board ["a";"b"]%char) =
    inl IndexError /\
  can_trace two_a_board "ab" = inl IndexError.
Proof. vm_compute. repeat split. Qed.

(** [C2] A one-letter word whose letter is on the board makes
    [recursive_string_search] index the emptied [letter_list]: the search
    raises [IndexError] instead of returning a boolean. *)
Theorem one_letter_word_index_error :
  positions_for_letter cats_board "a"%char = [(0,1)] /\
  can_trace cats_board "a" = inl IndexError /\
  can_trace two_a_board "ab" = inl IndexError.
Proof. vm_compute. repeat split. Qed.

(** [C10] [nearest_neighbor_letters] looks up [values] on the bound method
    [nearest_neighbor_data] and raises [AttributeError] on every call. *)
Theorem nearest_neighbor_letters_attribute_error (bb : BoggleBoard) (i_row j_col : Z) :
  nearest_neighbor_letters bb i_row j_col = inl AttributeError.
Proof. reflexivity. Qed.

(** The only [a] of [aba_board] is at [(0,0)]. *)
Lemma aba_board_a_cell (p : pos) :
  letter_is aba_board p "a"%char = true -> p = (0, 0).
Proof.
  destruct p as [i j]; unfold letter_is, in_bounds; simpl.
  intros H.
  destruct (0 <=? i) eqn:E1; [|discriminate]; destruct (i <? 2) eqn:E2; [|discriminate];
  destruct (0 <=? j) eqn:E3; [|discriminate]; destruct (j <? 2) eqn:E4; [|discriminate].
  apply Z.leb_le in E1; apply Z.ltb_lt in E2; apply Z.leb_le in E3; apply Z.ltb_lt in E4.
  assert (Hi : i = 0 \/ i = 1) by lia; assert (Hj : j = 0 \/ j = 1) by lia.
  destruct Hi, Hj; subst; vm_compute in H; first [reflexivity | discriminate].
Qed.

(** [C8] Without a visited set, the search accepts "aba" on a board whose
    only [a] is next to a [b]: every trace of "aba" uses the [a] cell twice. *)
Theorem revisiting_trace_accepted :
  board_of 2 "abxx" = inr aba_board /\
  can_trace aba_board "aba" = inr (Some true) /\
  is_trace aba_board ["a";"b";"a"]%char [(0,0); (0,1); (0,0)] = true /\
  (forall path, is_trace aba_board ["a";"b";"a"]%char path = true -> ~ NoDup path).
Proof.
  split; [vm_compute; reflexivity|].
  split; [vm_compute; reflexivity|].
  split; [vm_compute; reflexivity|].
  intros path H Hnd.
  destruct path as [|p0 [|p1 [|p2 [|p3 path]]]]; simpl in H;
    rewrite ?andb_false_r in H; try discriminate.
  repeat match goal with Hb : _ && _ = true |- _ => apply andb_prop in Hb as [? ?] end.
  assert (Hp0 : p0 = (0, 0)) by (apply aba_board_a_cell; assumption).
  assert (Hp2 : p2 = (0, 0)) by (apply aba_board_a_cell; assumption).
  subst.
  inversion Hnd as [|x l Hnin _]; subst.
  apply Hnin; simpl; auto.
Qed.

(** ** positions_for_letter *)

Lemma In_enumerate_from {A} (l : list A) : forall k i x,
  In (i, x) (enumerate_from k l) <->
  k <= i /\ nth_error l (Z.to_nat (i - k)) = Some x.
Proof.
  induction l as [|y l IH]; intros k i x; simpl.
  - split; [tauto|]. intros [_ H]. destruct (Z.to_nat (i - k)); discriminate.
  - rewrite IH. split.
    + intros [H|[H1 H2]].
      * injection H as <- <-. rewrite Z.sub_diag. simpl. split; [lia|reflexivity].
      * split; [lia|].
        replace (i - k) with (Z.succ (i - (k + 1))) by lia.
        rewrite Z2Nat.inj_succ by lia. exact H2.
      + intros [H1 H2].
        destruct (Z.eq_dec i k) as [->|Hne].
        * left. rewrite Z.sub_diag in H2. simpl in H2. congruence.
        * right. split; [lia|].
          replace (i - k) with (Z.succ (i - (k + 1))) in H2 by lia.
          rewrite Z2Nat.inj_succ in H2 by lia. exact H2.
Qed.

Lemma In_positions_for_letter (bb : BoggleBoard) (c : ascii) (i j : Z) :
  In (i, j) (positions_for_letter bb c) <->
  0 <= i /\ 0 <= j /\
  exists row, nth_error (board bb) (Z.to_nat i) = Some row /\
              nth_error row (Z.to_nat j) = Some c.
Proof.
  unfold positions_for_letter, enumerate.
  rewrite in_flat_map. split.
  - intros [[i' row] [Hrow Hin]].
    apply In_enumerate_from in Hrow as [Hi Hrow]. rewrite Z.sub_0_r in Hrow.
    apply in_flat_map in Hin as [[j' c'] [Hc Hin]]. simpl in Hin.
    apply In_enumerate_from in Hc as [Hj Hc]. rewrite Z.sub_0_r in Hc.
    destruct (Ascii.eqb c' c) eqn:E; [|contradiction].
    apply Ascii.eqb_eq in E; subst c'.
    destruct Hin as [Hin|[]]. injection Hin as <- <-.
    split; [exact Hi|]. split; [exact Hj|]. exists row. split; assumption.
  - intros [Hi [Hj [row [Hrow Hc]]]].
    exists (i, row). split.
    + apply In_enumerate_from. rewrite Z.sub_0_r. split; assumption.
    + apply in_flat_map. exists (j, c). split.
      * apply In_enumerate_from. rewrite Z.sub_0_r. split; assumption.
      * simpl. rewrite Ascii.eqb_refl. left; reflexivity.
Qed.

Lemma StronglySorted_app {A} (R : A -> A -> Prop) (l1 l2 : list A) :
  StronglySorted R l1 -> StronglySorted R l2 ->
  (forall x y, In x l1 -> In y l2 -> R x y) ->
  StronglySorted R (l1 ++ l2).
Proof.
  induction l1 as [|x l1 IH]; intros H1 H2 Hxy; simpl; [exact H2|].
  inversion H1 as [|? ? Hs Hf]; subst.
  constructor.
  - apply IH; auto. intros a b Ha Hb. apply Hxy; simpl; auto.
  - apply Forall_app. split; [exact Hf|].
    apply Forall_forall. intros y Hy. apply Hxy; simpl; auto.
Qed.

Lemma StronglySorted_flat_map {A B} (R : B -> B -> Prop) (f : A -> list B) (l : list A) :
  (forall a, In a l -> StronglySorted R (f a)) ->
  StronglySorted (fun a b => forall x y, In x (f a) -> In y (f b) -> R x y) l ->
  StronglySorted R (flat_map f l).
Proof.
  induction l as [|a l IH]; intros Hf Hl; simpl; [constructor|].
  inversion Hl as [|? ? Hs Hfa]; subst.
  apply StronglySorted_app.
  - apply Hf; simpl; auto.
  - apply IH; auto. intros b Hb; apply Hf; simpl; auto.
  - intros x y Hx Hy. apply in_flat_map in Hy as [b [Hb Hy]].
    rewrite Forall_forall in Hfa. exact (Hfa b Hb x y Hx Hy).
Qed.

Lemma StronglySorted_enumerate_from {A} (l : list A) : forall k,
  StronglySorted (fun a b => fst a < fst b) (enumerate_from k l).
Proof.
  induction l as [|x l IH]; intros k; simpl; constructor; [apply IH|].
  apply Forall_forall. intros [i y] Hin. apply In_enumerate_from in Hin. simpl; lia.
Qed.

Lemma StronglySorted_impl {A} (R S : A -> A -> Prop) (l : list A) :
  (forall x y, In x l -> In y l -> R x y -> S x y) ->
  StronglySorted R l -> StronglySorted S l.
Proof.
  induction l as [|x l IH]; intros Himp Hl; [constructor|].
  inversion Hl as [|? ? Hs Hf]; subst. constructor.
  - apply IH; auto. intros a b Ha Hb; apply Himp; simpl; auto.
  - rewrite Forall_forall in *. intros y Hy. apply Himp; simpl; auto.
Qed.

(** [C9] [positions_for_letter] lists exactly the positions holding the
    letter, in row-major order (strictly increasing, so without repetition),
    and is empty exactly when the letter does not occur on the board. *)
Theorem positions_for_letter_spec (bb : BoggleBoard) (c : ascii) :
  (forall i j, In (i, j) (positions_for_letter bb c) <->
     0 <= i /\ 0 <= j /\
     exists row, nth_error (board bb) (Z.to_nat i) = Some row /\
                 nth_error row (Z.to_nat j) = Some c) /\
  StronglySorted pos_lt (positions_for_letter bb c) /\
  (positions_for_letter bb c = [] <-> ~ exists row, In row (board bb) /\ In c row).
Proof.
  split; [apply In_positions_for_letter|]. split.
  - unfold positions_for_letter, enumerate.
    apply StronglySorted_flat_map.
    + intros [i row] _. apply StronglySorted_flat_map.
      * intros [j c'] _. simpl. destruct (Ascii.eqb c' c); repeat constructor.
      * apply (StronglySorted_impl (fun a b => fst a < fst b)).
        2: apply StronglySorted_enumerate_from.
        intros [j1 c1] [j2 c2] _ _ Hlt x y Hx Hy. simpl in *.
        destruct (Ascii.eqb c1 c), (Ascii.eqb c2 c); simpl in Hx, Hy;
          try contradiction.
        destruct Hx as [<-|[]]; destruct Hy as [<-|[]].
        unfold pos_lt; simpl; right; lia.
    + apply (StronglySorted_impl (fun a b => fst a < fst b)).
      2: apply StronglySorted_enumerate_from.
      intros [i1 r1] [i2 r2] _ _ Hlt x y Hx Hy. simpl in *.
      apply in_flat_map in Hx as [[j1 c1] [_ Hx]].
      apply in_flat_map in Hy as [[j2 c2] [_ Hy]]. simpl in Hx, Hy.
      destruct (Ascii.eqb c1 c), (Ascii.eqb c2 c); simpl in Hx, Hy;
        try contradiction.
      destruct Hx as [<-|[]]; destruct Hy as [<-|[]].
      unfold pos_lt; simpl; left; lia.
  - split.
    + intros Hnil [row [Hrow Hc]].
      apply In_nth_error in Hrow as [i Hi]. apply In_nth_error in Hc as [j Hj].
      assert (Hin : In (Z.of_nat i, Z.of_nat j) (positions_for_letter bb c)).
      { apply In_positions_for_letter. split; [lia|]. split; [lia|].
        exists row. rewrite !Nat2Z.id. split; assumption. }
      rewrite Hnil in Hin. contradiction.
    + intros Hno. destruct (positions_for_letter bb c) as [|[i j] l] eqn:E; [reflexivity|].
      exfalso. apply Hno.
      assert (Hin : In (i, j) (positions_for_letter bb c)) by (rewrite E; left; reflexivity).
      apply In_positions_for_letter in Hin as [_ [_ [row [Hrow Hc]]]].
      exists row. split; eapply nth_error_In; eassumption.
Qed.

(** ** Neighbors *)

Lemma pos_eqb_eq (p q : pos) : pos_eqb p q = true <-> p = q.
Proof.
  destruct p as [a b], q as [c d]; unfold pos_eqb; simpl.
  rewrite andb_true_iff, !Z.eqb_eq. split; [intros [-> ->]; reflexivity|].
  intros H; injection H as -> ->; split; reflexivity.
Qed.

Lemma dict_set_fresh {V} (d : list (pos * V)) (k : pos) (v : V) :
  ~ In k (map fst d) -> dict_set pos_eqb d k v = d ++ [(k, v)].
Proof.
  intros Hk. unfold dict_set.
  replace (existsb (fun kv => pos_eqb (fst kv) k) d) with false; [reflexivity|].
  symmetry. apply not_true_is_false. intros Hex.
  apply existsb_exists in Hex as [[k' v'] [Hin Heq]].
  apply pos_eqb_eq in Heq. simpl in Heq. subst k'.
  apply Hk. apply in_map_iff. exists (k, v'). split; [reflexivity|exact Hin].
Qed.

Lemma nn_fill_keys (bb : BoggleBoard) : forall vs d nn,
  NoDup (map fst d ++ somes vs) -> nn_fill bb d vs = inr nn ->
  map fst nn = map fst d ++ somes vs.
Proof.
  induction vs as [|[p|] vs IH]; intros d nn Hnd H; simpl in *.
  - injection H as <-. rewrite app_nil_r. reflexivity.
  - destruct (get_letter_at_position bb (fst p) (snd p)) as [e|c]; [discriminate|].
    simpl in H.
    assert (Hfresh : ~ In p (map fst d)).
    { intros Hin. apply NoDup_remove_2 in Hnd. apply Hnd. apply in_or_app. left; exact Hin. }
    rewrite dict_set_fresh in H by exact Hfresh.
    assert (Hnd' : NoDup (map fst (d ++ [(p, c)]) ++ somes vs))
      by (rewrite map_app, <- app_assoc; exact Hnd).
    rewrite (IH _ _ Hnd' H), map_app, <- app_assoc. reflexivity.
  - apply IH; assumption.
Qed.

Lemma nn_fill_ok (bb : BoggleBoard) : forall vs d,
  (forall p, In p (somes vs) -> exists c, get_letter_at_position bb (fst p) (snd p) = inr c) ->
  exists nn, nn_fill bb d vs = inr nn.
Proof.
  induction vs as [|[p|] vs IH]; intros d Hok; simpl in *.
  - exists d; reflexivity.
  - destruct (Hok p (or_introl eq_refl)) as [c Hc]. rewrite Hc. simpl.
    apply IH. intros q Hq. apply Hok. right; exact Hq.
  - apply IH. exact Hok.
Qed.

Ltac neighbor_guards i j sz :=
  unfold neighbor_positions, build_neighbor_map, somes;
  destruct (0 <? j) eqn:E1, (j <? sz - 1) eqn:E2, (0 <? i) eqn:E3,
           (i <? sz - 1) eqn:E4; cbn -[Z.sub Z.add];
  rewrite ?Z.ltb_lt, ?Z.ltb_ge in E1, E2, E3, E4.

Lemma neighbor_positions_NoDup (sz i j : Z) : NoDup (neighbor_positions sz i j).
Proof.
  neighbor_guards i j sz;
  repeat constructor; simpl; intros Hin;
  repeat (destruct Hin as [Hin|Hin]); try contradiction;
  injection Hin; lia.
Qed.

Lemma neighbor_positions_in_bounds (sz i j : Z) (p : pos) :
  0 <= i < sz -> 0 <= j < sz -> In p (neighbor_positions sz i j) ->
  0 <= fst p < sz /\ 0 <= snd p < sz.
Proof.
  intros Hi Hj.
  neighbor_guards i j sz;
  intros Hin; repeat (destruct Hin as [Hin|Hin]); try contradiction;
  subst p; simpl; lia.
Qed.

Lemma neighbor_positions_length (N i j : Z) :
  2 <= N -> 0 <= i < N -> 0 <= j < N ->
  length (neighbor_positions N i j) = expected_neighbor_count N i j.
Proof.
  intros HN Hi Hj. unfold expected_neighbor_count, on_border.
  neighbor_guards i j N;
  destruct (i =? 0) eqn:F1, (i =? N - 1) eqn:F2, (j =? 0) eqn:F3, (j =? N - 1) eqn:F4;
  rewrite ?Z.eqb_eq, ?Z.eqb_neq in F1, F2, F3, F4; simpl; try reflexivity; lia.
Qed.

Lemma get_letter_in_bounds (bb : BoggleBoard) (a b : Z) :
  length (board bb) = Z.to_nat (size bb) ->
  Forall (fun row => length row = Z.to_nat (size bb)) (board bb) ->
  0 <= a < size bb -> 0 <= b < size bb ->
  exists c, get_letter_at_position bb a b = inr c.
Proof.
  intros Hrows Hcols Ha Hb. unfold get_letter_at_position, py_index.
  destruct (a <? 0) eqn:Ea; [apply Z.ltb_lt in Ea; lia|].
  rewrite Ea.
  destruct (nth_error (board bb) (Z.to_nat a)) as [row|] eqn:Er.
  2: { apply nth_error_None in Er. lia. }
  simpl.
  destruct (b <? 0) eqn:Eb; [apply Z.ltb_lt in Eb; lia|].
  rewrite Eb.
  assert (Hlen : length row = Z.to_nat (size bb)).
  { rewrite Forall_forall in Hcols. apply Hcols. eapply nth_error_In; exact Er. }
  destruct (nth_error row (Z.to_nat b)) as [c|] eqn:Ec.
  - exists c. reflexivity.
  - apply nth_error_None in Ec. lia.
Qed.

Lemma nearest_neighbor_data_keys (bb : BoggleBoard) (i j : Z) (nn : list (pos * ascii)) :
  nearest_neighbor_data bb i j = inr nn ->
  map fst nn = neighbor_positions (size bb) i j.
Proof.
  intros H. unfold nearest_neighbor_data in H.
  apply nn_fill_keys in H; [exact H|].
  apply neighbor_positions_NoDup.
Qed.

(** [C4] On an [N x N] board with [N >= 2], [nearest_neighbor_data] of a cell
    succeeds and holds 3 neighbors for a corner cell, 5 for a non-corner
    edge cell and 8 for an interior cell. *)
Theorem nearest_neighbor_data_count (bb : BoggleBoard) (i j : Z)
  (HN : 2 <= size bb)
  (Hrows : length (board bb) = Z.to_nat (size bb))
  (Hcols : Forall (fun row => length row = Z.to_nat (size bb)) (board bb))
  (Hi : 0 <= i < size bb) (Hj : 0 <= j < size bb) :
  exists nn, nearest_neighbor_data bb i j = inr nn /\
             map fst nn = neighbor_positions (size bb) i j /\
             length nn = expected_neighbor_count (size bb) i j.
Proof.
  destruct (nn_fill_ok bb (map snd (build_neighbor_map (size bb) i j)) [])
    as [nn Hnn].
  { intros p Hp. apply get_letter_in_bounds; try assumption;
      apply (neighbor_positions_in_bounds (size bb) i j p Hi Hj Hp). }
  exists nn. split; [exact Hnn|].
  assert (Hk : map fst nn = neighbor_positions (size bb) i j)
    by (apply nearest_neighbor_data_keys; exact Hnn).
  split; [exact Hk|].
  rewrite <- (neighbor_positions_length (size bb) i j HN Hi Hj), <- Hk, length_map.
  reflexivity.
Qed.

Lemma nearest_neighbor_data_count_witness :
  exists nn, nearest_neighbor_data cats_board 0 0 = inr nn /\
             map fst nn = neighbor_positions (size cats_board) 0 0 /\
             length nn = expected_neighbor_count (size cats_board) 0 0.
Proof.
  apply (nearest_neighbor_data_count cats_board 0 0);
    change (size cats_board) with 4; try lia.
  - vm_compute. reflexivity.
  - vm_compute. repeat constructor.
Defined.

(** ** First-match step of recursive_string_search *)

(** [C3] One step of the search from a cell: the neighbors are the
    compass-ordered [neighbor_positions] (left, right, up, down, up-left,
    up-right, down-left, down-right), and the search commits to the first
    neighbor holding the next letter: it succeeds if that was the last
    letter and otherwise continues from that neighbor only.  On
    [dead_end_board] this first-match commitment rejects "abc" although the
    trace (0,0),(1,0),(2,0) exists. *)
Theorem rss_first_match (depth : nat) (fr : Frame) (i j : Z) (cur next : ascii)
  (rest : list ascii) (pre post : list (pos * ascii)) (a b : Z)
  (Hll : frame_letters fr = cur :: next :: rest)
  (Hnn : nearest_neighbor_data (self_board fr) i j = inr (pre ++ ((a, b), next) :: post))
  (Hpre : ~ In next (map snd pre)) :
  map fst (pre ++ ((a, b), next) :: post) = neighbor_positions (size (self_board fr)) i j /\
  recursive_string_search (S depth) i j fr =
    match rest with
    | [] => inr (Some true, mkFrame (self_board fr) (next :: rest))
    | _ :: _ => recursive_string_search depth a b (mkFrame (self_board fr) (next :: rest))
    end /\
  (positions_for_letter dead_end_board "a"%char = [(0, 0)] /\
   is_trace dead_end_board ["a";"b";"c"]%char [(0,0); (1,0); (2,0)] = true /\
   can_trace dead_end_board "abc" = inr (Some false)).
Proof.
  split; [apply nearest_neighbor_data_keys; exact Hnn|].
  split; [|vm_compute; repeat split].
  destruct fr as [bb l]; simpl in Hll, Hnn |- *; subst l.
  cbn [recursive_string_search bind pop_front index_front get_board lift ret
       self_board frame_letters].
  rewrite Hnn.
  assert (Hex : existsb (fun l => Ascii.eqb l next) (map snd (pre ++ ((a, b), next) :: post))
                = true).
  { apply existsb_exists. exists next. split.
    - rewrite map_app. apply in_or_app. right. left. reflexivity.
    - apply Ascii.eqb_refl. }
  cbn [bind lift]. rewrite Hex. cbn [negb].
  clear Hnn Hex.
  induction pre as [|[t_pos c] pre IH].
  - simpl. rewrite Ascii.eqb_refl. unfold bind, len_letters, ret. simpl.
    destruct rest; reflexivity.
  - simpl app. simpl in Hpre.
    destruct (Ascii.eqb c next) eqn:Ec.
    + apply Ascii.eqb_eq in Ec. exfalso. apply Hpre. left. exact Ec.
    + rewrite Ec. apply IH. intros Hin. apply Hpre. right. exact Hin.
Qed.

Lemma rss_first_match_witness :
  map fst ([((0, 1), "a"%char)] ++ ((1, 0), "o"%char) :: [((1, 1), "x"%char)]) =
    neighbor_positions (size cats_board) 0 0 /\
  recursive_string_search 5 0 0 (mkFrame cats_board ["c";"o";"t"]%char) =
    recursive_string_search 4 1 0 (mkFrame cats_board ["o";"t"]%char) /\
  (positions_for_letter dead_end_board "a"%char = [(0, 0)] /\
   is_trace dead_end_board ["a";"b";"c"]%char [(0,0); (1,0); (2,0)] = true /\
   can_trace dead_end_board "abc" = inr (Some false)).
Proof.
  exact (rss_first_match 4 (mkFrame cats_board ["c";"o";"t"]%char) 0 0 "c"%char "o"%char
           ["t"%char] [((0, 1), "a"%char)] [((1, 1), "x"%char)] 1 0
           eq_refl
           (ltac:(vm_compute; reflexivity))
           (ltac:(simpl; intros [H|[]]; discriminate H))).
Defined.

(** ** BoggleBoard construction *)

Lemma chunks_spec {A} (n : nat) : forall m (l : list A),
  length l = (m * n)%nat ->
  concat (map (fun k => firstn n (skipn (k * n) l)) (seq 0 m)) = l /\
  Forall (fun r => length r = n) (map (fun k => firstn n (skipn (k * n) l)) (seq 0 m)).
Proof.
  induction m as [|m IH]; intros l Hl.
  - destruct l; [split; constructor|discriminate].
  - cbn [seq map]. rewrite <- seq_shift, map_map.
    assert (Hsh : forall k, firstn n (skipn (S k * n) l) = firstn n (skipn (k * n) (skipn n l))).
    { intros k. rewrite skipn_skipn. f_equal. f_equal. lia. }
    rewrite (map_ext _ _ Hsh).
    assert (Hl' : length (skipn n l) = (m * n)%nat) by (rewrite length_skipn; lia).
    destruct (IH (skipn n l) Hl') as [Hc Hf].
    simpl. rewrite Hc, firstn_skipn. split; [reflexivity|].
    constructor; [rewrite length_firstn; lia|exact Hf].
Qed.

Lemma build_board_square (n : nat) (l : list ascii) :
  (1 <= n)%nat -> length l = (n * n)%nat ->
  build_board (Z.of_nat n) l =
    inr (map (fun k => firstn n (skipn (k * n) l)) (seq 0 n)).
Proof.
  intros Hn Hl. unfold build_board, py_range0.
  destruct (Z.of_nat n =? 0) eqn:E0; [apply Z.eqb_eq in E0; lia|].
  destruct (Z.of_nat n <? 0) eqn:E1; [apply Z.ltb_lt in E1; lia|].
  simpl. rewrite Hl.
  replace ((Z.of_nat (n * n) + Z.of_nat n - 1) / Z.of_nat n) with (Z.of_nat n).
  2: { rewrite Nat2Z.inj_mul.
       replace (Z.of_nat n * Z.of_nat n + Z.of_nat n - 1)
         with (Z.of_nat n * Z.of_nat n + (Z.of_nat n - 1)) by lia.
       rewrite Z.div_add_l by lia. rewrite Z.div_small by lia. lia. }
  rewrite Nat2Z.id, map_map. f_equal. apply map_ext. intros k.
  unfold py_slice. f_equal.
  - replace (Z.of_nat k * Z.of_nat n + Z.of_nat n - Z.of_nat k * Z.of_nat n)
      with (Z.of_nat n) by lia. apply Nat2Z.id.
  - f_equal. rewrite <- Nat2Z.inj_mul. apply Nat2Z.id.
Qed.

Lemma existsb_not_forallb {A} (f : A -> bool) (l : list A) :
  existsb (fun x => negb (f x)) l = negb (forallb f l).
Proof. induction l as [|x l IH]; simpl; [reflexivity|]. rewrite IH. destruct (f x); reflexivity. Qed.

(** [C5] (as stated) fails at size 0 with the empty letter string: no
    character is non-alphabetic and the length is [0 = 0^2], yet
    ["".isalpha()] is [False] and [InitError] is raised; and at size [-1]
    with letters "a" construction succeeds with no row at all. *)
Lemma BoggleBoard_init_small_sizes :
  BoggleBoard_init (Some (SizeInt 0)) (Some EmptyString) (fun _ => "e"%char) = inl InitError /\
  existsb (fun c => negb (is_alpha_char c)) (list_ascii_of_string "") = false /\
  Z.of_nat (length (list_ascii_of_string "")) = 0 ^ 2 /\
  (exists bb, BoggleBoard_init (Some (SizeInt (-1))) (Some "a"%string) (fun _ => "e"%char) = inr bb /\
              board bb = []).
Proof.
  split; [reflexivity|]. split; [reflexivity|]. split; [reflexivity|].
  eexists. split; [reflexivity|reflexivity].
Qed.

(** [C5] (amended) For a positive integer size and a supplied letter string,
    construction raises [InitError] exactly when some character is not
    alphabetic or the length differs from [size^2]; a non-integer size
    raises [InitError]; no other exception is raised; and every board built
    has [size] rows of [size] letters holding the string in row-major order. *)
Theorem BoggleBoard_init_spec (z : Z) (s : string) (choice : nat -> ascii) (Hz : 1 <= z) :
  (forall la, BoggleBoard_init (Some SizeNonInt) la choice = inl InitError) /\
  (BoggleBoard_init (Some (SizeInt z)) (Some s) choice = inl InitError <->
     existsb (fun c => negb (is_alpha_char c)) (list_ascii_of_string s) = true \/
     Z.of_nat (length (list_ascii_of_string s)) <> z ^ 2) /\
  ((exists bb, BoggleBoard_init (Some (SizeInt z)) (Some s) choice = inr bb) \/
   BoggleBoard_init (Some (SizeInt z)) (Some s) choice = inl InitError) /\
  (forall bb, BoggleBoard_init (Some (SizeInt z)) (Some s) choice = inr bb ->
     size bb = z /\ length (board bb) = Z.to_nat z /\
     Forall (fun row => length row = Z.to_nat z) (board bb) /\
     concat (board bb) = list_ascii_of_string s).
Proof.
  split; [reflexivity|].
  set (n := Z.to_nat z).
  assert (Hzn : z = Z.of_nat n) by (unfold n; lia).
  assert (Hn : (1 <= n)%nat) by lia.
  destruct s as [|c s'].
  { (* the empty string is not alphabetic *)
    assert (Hne : Z.of_nat 0 <> z ^ 2) by nia.
    split; [split; [intros _; right; exact Hne|reflexivity]|].
    split; [right; reflexivity|]. intros bb H; discriminate. }
  unfold BoggleBoard_init, py_isalpha. cbn [res_bind list_ascii_of_string].
  set (L := c :: list_ascii_of_string s').
  rewrite existsb_not_forallb.
  destruct (forallb is_alpha_char L) eqn:Ea; cbn [negb res_bind].
  2: { split; [split; [intros _; left; reflexivity|reflexivity]|].
       split; [right; reflexivity|]. intros bb H; discriminate. }
  destruct (Z.of_nat (length L) =? z ^ 2) eqn:El; cbn [negb res_bind].
  2: { apply Z.eqb_neq in El.
       split; [split; [intros _; right; exact El|reflexivity]|].
       split; [right; reflexivity|]. intros bb H; discriminate. }
  apply Z.eqb_eq in El.
  assert (HL : length L = (n * n)%nat).
  { apply Nat2Z.inj. rewrite El, Nat2Z.inj_mul, <- Hzn. ring. }
  unfold build_letter_list. cbn [String.eqb negb].
  change (list_ascii_of_string (String c s')) with L.
  rewrite Hzn, (build_board_square n L Hn HL). cbn [res_bind].
  destruct (chunks_spec n n L HL) as [Hc Hf].
  split.
  { split; [intros H; discriminate|]. intros [H|H]; [discriminate|congruence]. }
  split; [left; eexists; reflexivity|].
  intros bb H. injection H as <-. simpl.
  split; [reflexivity|].
  split; [rewrite List.length_map, length_seq; reflexivity|].
  split; [exact Hf|exact Hc].
Qed.

Lemma BoggleBoard_init_spec_witness :
  (forall la, BoggleBoard_init (Some SizeNonInt) la (fun _ => "e"%char) = inl InitError) /\
  (BoggleBoard_init (Some (SizeInt 2)) (Some "abcd"%string) (fun _ => "e"%char) = inl InitError <->
     existsb (fun c => negb (is_alpha_char c)) (list_ascii_of_string "abcd") = true \/
     Z.of_nat (length (list_ascii_of_string "abcd")) <> 2 ^ 2) /\
  ((exists bb, BoggleBoard_init (Some (SizeInt 2)) (Some "abcd"%string) (fun _ => "e"%char) = inr bb) \/
   BoggleBoard_init (Some (SizeInt 2)) (Some "abcd"%string) (fun _ => "e"%char) = inl InitError) /\
  (forall bb, BoggleBoard_init (Some (SizeInt 2)) (Some "abcd"%string) (fun _ => "e"%char) = inr bb ->
     size bb = 2 /\ length (board bb) = Z.to_nat 2 /\
     Forall (fun row => length row = Z.to_nat 2) (board bb) /\
     concat (board bb) = list_ascii_of_string "abcd").
Proof.
  apply (BoggleBoard_init_spec 2 "abcd" (fun _ => "e"%char)). lia.
Defined.

(** * Further properties of the game layer and the board *)

(** ** The scored-word dict *)

Lemma dict_get_set_same (d : list (string * Z)) (k : string) (v : Z) :
  dict_get (dict_set String.eqb d k v) k = Some v.
Proof.
  unfold dict_set, dict_get.
  destruct (existsb (fun kv => String.eqb (fst kv) k) d) eqn:E.
  - induction d as [|[k' v'] d IH]; simpl in *; [discriminate|].
    destruct (String.eqb k' k) eqn:Ek; simpl; rewrite ?Ek; [reflexivity|].
    apply IH. exact E.
  - induction d as [|[k' v'] d IH]; simpl in *.
    + rewrite String.eqb_refl. reflexivity.
    + destruct (String.eqb k' k) eqn:Ek; [discriminate|]. apply IH. exact E.
Qed.

Lemma dict_get_set_other (d : list (string * Z)) (k k' : string) (v : Z) :
  k' <> k -> dict_get (dict_set String.eqb d k v) k' = dict_get d k'.
Proof.
  intros Hne. unfold dict_set, dict_get.
  assert (Hkk : String.eqb k k' = false) by (apply String.eqb_neq; congruence).
  destruct (existsb (fun kv => String.eqb (fst kv) k) d).
  - induction d as [|[k0 v0] d IH]; simpl; [reflexivity|].
    destruct (String.eqb k0 k) eqn:Ek; simpl.
    + apply String.eqb_eq in Ek; subst k0. rewrite Hkk. exact IH.
    + destruct (String.eqb k0 k'); [reflexivity|exact IH].
  - induction d as [|[k0 v0] d IH]; simpl.
    + rewrite Hkk. reflexivity.
    + destruct (String.eqb k0 k'); [reflexivity|exact IH].
Qed.

Lemma dict_set_keys_in (d : list (string * Z)) (k : string) (v : Z) :
  existsb (fun kv => String.eqb (fst kv) k) d = true ->
  map fst (dict_set String.eqb d k v) = map fst d.
Proof.
  intros E. unfold dict_set. rewrite E, map_map.
  apply map_ext. intros [k0 v0]. simpl. destruct (String.eqb k0 k); reflexivity.
Qed.

Lemma existsb_key_In (d : list (string * Z)) (k : string) :
  existsb (fun kv => String.eqb (fst kv) k) d = true <-> In k (map fst d).
Proof.
  rewrite existsb_exists, in_map_iff. split.
  - intros [kv [Hin Heq]]. apply String.eqb_eq in Heq. exists kv. auto.
  - intros [kv [Heq Hin]]. exists kv. split; [exact Hin|]. apply String.eqb_eq. exact Heq.
Qed.

Lemma dict_set_keys (d : list (string * Z)) (k : string) (v : Z) :
  map fst (dict_set String.eqb d k v) =
  if existsb (fun kv => String.eqb (fst kv) k) d then map fst d else map fst d ++ [k].
Proof.
  destruct (existsb (fun kv => String.eqb (fst kv) k) d) eqn:E.
  - apply dict_set_keys_in. exact E.
  - unfold dict_set. rewrite E, map_app. reflexivity.
Qed.

Lemma dict_set_NoDup (d : list (string * Z)) (k : string) (v : Z) :
  NoDup (map fst d) -> NoDup (map fst (dict_set String.eqb d k v)).
Proof.
  intros Hnd. rewrite dict_set_keys.
  destruct (existsb (fun kv => String.eqb (fst kv) k) d) eqn:E; [exact Hnd|].
  apply NoDup_app; [exact Hnd|repeat constructor; simpl; tauto|].
  intros x Hx [<-|[]]. apply existsb_key_In in Hx. congruence.
Qed.

(** Setting a key to the value it already has everywhere leaves the dict as it is. *)
Lemma dict_set_idem (d : list (string * Z)) (k : string) (v : Z) :
  dict_set String.eqb (dict_set String.eqb d k v) k v = dict_set String.eqb d k v.
Proof.
  set (d1 := dict_set String.eqb d k v).
  assert (Hin : existsb (fun kv => String.eqb (fst kv) k) d1 = true).
  { apply existsb_key_In. unfold d1. rewrite dict_set_keys.
    destruct (existsb (fun kv => String.eqb (fst kv) k) d) eqn:E.
    - apply existsb_key_In. exact E.
    - apply in_or_app. right. left. reflexivity. }
  assert (Hval : forall kv, In kv d1 -> fst kv = k -> snd kv = v).
  { unfold d1, dict_set. intros [k0 v0] Hkv Hk; simpl in Hk |- *; subst k0.
    destruct (existsb (fun kv => String.eqb (fst kv) k) d) eqn:E.
    - apply in_map_iff in Hkv as [[k1 v1] [Heq _]]. simpl in Heq.
      destruct (String.eqb k1 k) eqn:Ek1; injection Heq as H1 H2; [congruence|].
      subst k1. rewrite String.eqb_refl in Ek1. discriminate.
    - apply in_app_or in Hkv as [Hkv|[Hkv|[]]].
      + exfalso. assert (Hx : In k (map fst d)) by (apply in_map_iff; exists (k, v0); auto).
        apply existsb_key_In in Hx. congruence.
      + injection Hkv; auto. }
  unfold dict_set at 1. rewrite Hin.
  clearbody d1. clear Hin.
  induction d1 as [|[k0 v0] d1 IH]; simpl; [reflexivity|].
  destruct (String.eqb k0 k) eqn:Ek.
  - apply String.eqb_eq in Ek. subst k0.
    assert (Hv : v0 = v) by exact (Hval (k, v0) (or_introl eq_refl) eq_refl).
    subst v0. f_equal. apply IH. intros kv Hkv. apply Hval. right. exact Hkv.
  - f_equal. apply IH. intros kv Hkv. apply Hval. right. exact Hkv.
Qed.

Lemma dict_sum_set_fresh (d : list (string * Z)) (k : string) (v : Z) :
  ~ In k (map fst d) ->
  fold_right (fun kv acc => snd kv + acc) 0 (dict_set String.eqb d k v) =
  fold_right (fun kv acc => snd kv + acc) 0 d + v.
Proof.
  intros Hk. unfold dict_set.
  replace (existsb (fun kv => String.eqb (fst kv) k) d) with false.
  2: { symmetry. apply not_true_is_false. rewrite existsb_key_In. exact Hk. }
  rewrite fold_right_app. simpl.
  induction d as [|kv d IH]; simpl; [lia|].
  rewrite IH; [lia|]. intros Hin. apply Hk. right. exact Hin.
Qed.

(** ** play_word *)

Lemma check_word_board_unchanged (bb bb' : BoggleBoard) (word : string) (r : PyBool) :
  check_word_on_board bb word = inr (r, bb') -> bb' = bb.
Proof.
  unfold check_word_on_board.
  destruct (check_word_body (mkFrame bb (list_ascii_of_string word))) as [e|[r0 fr]] eqn:E;
    [discriminate|].
  intros H; injection H as _ <-.
  exact (keeps_board_check_body _ _ _ E).
Qed.

Lemma play_word_cases (api : string -> list json) (w : string) (g g' : BoggleGame)
  (r : GRes (option (list (string * Z)))) :
  play_word api w g = (r, g') ->
  (r = inr (Some [(w, word_score w)]) /\
   is_playable_word w (api w) = inr true /\
   (exists b, check_word_on_board (game_board g) w = inr (b, game_board g) /\ truthy b = true) /\
   g' = mkBoggleGame (game_board g) (dict_set String.eqb (scored_words g) w (word_score w)))
  \/ ((r = inr None \/ exists e, r = inl e) /\ g' = g).
Proof.
  destruct g as [bb sw]. unfold play_word; simpl.
  destruct (is_playable_word w (api w)) as [e|[|]] eqn:Ep.
  - intros H; injection H as <- <-. right. split; [right; eexists; reflexivity|reflexivity].
  - destruct (check_word_on_board bb w) as [e|[b bb']] eqn:Ec.
    + intros H; injection H as <- <-. right. split; [right; eexists; reflexivity|reflexivity].
    + pose proof (check_word_board_unchanged _ _ _ _ Ec) as Hbb. subst bb'.
      destruct (truthy b) eqn:Eb; intros H; injection H as <- <-.
      * left. split; [reflexivity|]. split; [reflexivity|].
        split; [exists b; split; [reflexivity|exact Eb]|reflexivity].
      * right. split; [left; reflexivity|reflexivity].
  - intros H; injection H as <- <-. right. split; [left; reflexivity|reflexivity].
Qed.

(** [play_word] never changes the board.  When it scores a word it returns
    [{word: score}] and records [scored_words[word] = score], leaving every
    other word's entry as it was; when it returns [None] or raises, the
    game is left exactly as it was. *)
Theorem play_word_records_score (api : string -> list json) (w : string) (g g' : BoggleGame)
  (r : GRes (option (list (string * Z)))) (H : play_word api w g = (r, g')) :
  game_board g' = game_board g /\
  match r with
  | inr (Some d) =>
      d = [(w, word_score w)] /\
      dict_get (scored_words g') w = Some (word_score w) /\
      (forall k, k <> w -> dict_get (scored_words g') k = dict_get (scored_words g) k)
  | _ => g' = g
  end.
Proof.
  apply play_word_cases in H as [[-> [_ [_ ->]]]|[[->|[e ->]] ->]]; simpl;
    try (split; reflexivity).
  split; [reflexivity|]. split; [reflexivity|]. split.
  - apply dict_get_set_same.
  - intros k Hk. apply dict_get_set_other. exact Hk.
Qed.

Lemma play_word_records_score_witness :
  game_board (mkBoggleGame cats_board [("cat"%string, 5)]) = game_board (mkBoggleGame cats_board []) /\
  match (inr (Some [("cat"%string, 5)]) : GRes (option (list (string * Z)))) with
  | inr (Some d) =>
      d = [("cat"%string, word_score "cat")] /\
      dict_get (scored_words (mkBoggleGame cats_board [("cat"%string, 5)])) "cat" =
        Some (word_score "cat") /\
      (forall k, k <> "cat"%string ->
         dict_get (scored_words (mkBoggleGame cats_board [("cat"%string, 5)])) k =
         dict_get (scored_words (mkBoggleGame cats_board [])) k)
  | _ => mkBoggleGame cats_board [("cat"%string, 5)] = mkBoggleGame cats_board []
  end.
Proof.
  apply (play_word_records_score cat_api "cat" (mkBoggleGame cats_board [])).
  vm_compute. reflexivity.
Defined.

(** Playing a word a second time, after it was scored, returns the same
    [{word: score}] and leaves the game unchanged: the score is not counted
    twice. *)
Theorem play_word_replay (api : string -> list json) (w : string) (g g1 : BoggleGame)
  (d : list (string * Z)) (H : play_word api w g = (inr (Some d), g1)) :
  play_word api w g1 = (inr (Some d), g1).
Proof.
  apply play_word_cases in H as [[Hr [Ep [[b [Ec Eb]] ->]]]|[[Hr|[e Hr]] _]];
    try discriminate.
  injection Hr as ->.
  unfold play_word at 1. simpl. rewrite Ep, Ec, Eb. simpl.
  rewrite dict_set_idem. reflexivity.
Qed.

Lemma play_word_replay_witness :
  play_word cat_api "cat" (mkBoggleGame cats_board [("cat"%string, 5)]) =
    (inr (Some [("cat"%string, 5)]), mkBoggleGame cats_board [("cat"%string, 5)]).
Proof.
  apply (play_word_replay cat_api "cat" (mkBoggleGame cats_board [])).
  vm_compute. reflexivity.
Defined.

(** Scoring a word not yet played adds its score to [current_score] and
    appends it to [current_words]. *)
Theorem play_word_new_word_score (api : string -> list json) (w : string) (g g' : BoggleGame)
  (d : list (string * Z)) (Hnew : ~ In w (current_words g))
  (H : play_word api w g = (inr (Some d), g')) :
  current_score g' = current_score g + word_score w /\
  current_words g' = current_words g ++ [w].
Proof.
  apply play_word_cases in H as [[_ [_ [_ ->]]]|[[Hr|[e Hr]] _]]; try discriminate.
  unfold current_score, current_words in *; simpl.
  split; [apply dict_sum_set_fresh; exact Hnew|].
  rewrite dict_set_keys.
  replace (existsb (fun kv => String.eqb (fst kv) w) (scored_words g)) with false;
    [reflexivity|].
  symmetry. apply not_true_is_false. rewrite existsb_key_In. exact Hnew.
Qed.

Lemma play_word_new_word_score_witness :
  current_score (mkBoggleGame cats_board [("cat"%string, 5)]) =
    current_score (mkBoggleGame cats_board []) + word_score "cat" /\
  current_words (mkBoggleGame cats_board [("cat"%string, 5)]) =
    current_words (mkBoggleGame cats_board []) ++ ["cat"%string].
Proof.
  apply (play_word_new_word_score cat_api "cat" (mkBoggleGame cats_board []) _
           [("cat"%string, 5)]).
  - simpl. tauto.
  - vm_compute. reflexivity.
Defined.

(** [play_word] keeps [scored_words] free of repeated words, and never
    removes a word that was already scored. *)
Theorem play_word_keys_invariant (api : string -> list json) (w : string) (g g' : BoggleGame)
  (r : GRes (option (list (string * Z))))
  (Hnd : NoDup (current_words g)) (H : play_word api w g = (r, g')) :
  NoDup (current_words g') /\ incl (current_words g) (current_words g').
Proof.
  apply play_word_cases in H as [[_ [_ [_ ->]]]|[_ ->]];
    [|split; [exact Hnd|apply incl_refl]].
  unfold current_words in *; simpl. split; [apply dict_set_NoDup; exact Hnd|].
  rewrite dict_set_keys.
  destruct (existsb (fun kv => String.eqb (fst kv) w) (scored_words g));
    [apply incl_refl|apply incl_appl, incl_refl].
Qed.

Lemma play_word_keys_invariant_witness :
  NoDup (current_words (mkBoggleGame cats_board [("cat"%string, 5)])) /\
  incl (current_words (mkBoggleGame cats_board []))
       (current_words (mkBoggleGame cats_board [("cat"%string, 5)])).
Proof.
  apply (play_word_keys_invariant cat_api "cat" (mkBoggleGame cats_board [])
           _ (inr (Some [("cat"%string, 5)]))).
  - constructor.
  - vm_compute. reflexivity.
Defined.

(** ** play_word_list *)

Lemma dict_update_single (acc : list (string * Z)) (w : string) (s : Z) :
  dict_update acc (Some [(w, s)]) = inr (dict_set String.eqb acc w s).
Proof. reflexivity. Qed.

(** [play_word_list] returns normally only if every word of the list was
    scored: each word then maps to its score in the returned dict and in
    [scored_words]; an unplayable word makes [dict.update(None)] raise
    [TypeError]. *)
Theorem play_word_list_all_scored (api : string -> list json) (ws : list string)
  (g g' : BoggleGame) (res : list (string * Z))
  (H : play_word_list api ws g = (inr res, g')) :
  forall w, In w ws ->
    dict_get res w = Some (word_score w) /\
    dict_get (scored_words g') w = Some (word_score w).
Proof.
  unfold play_word_list in H.
  assert (Hgen : forall ws acc g g' res,
            play_words api ws acc g = (inr res, g') ->
            (forall w, In w ws ->
               dict_get res w = Some (word_score w) /\
               dict_get (scored_words g') w = Some (word_score w)) /\
            (forall k, dict_get acc k = Some (word_score k) ->
               dict_get res k = Some (word_score k)) /\
            (forall k, dict_get (scored_words g) k = Some (word_score k) ->
               dict_get (scored_words g') k = Some (word_score k))).
  { clear ws g g' res H.
    induction ws as [|w ws IH]; intros acc g g' res H; simpl in H.
    - injection H as <- <-. split; [intros w []|]. split; auto.
    - destruct (play_word api w g) as [r g1] eqn:Ep.
      pose proof (play_word_cases _ _ _ _ _ Ep) as Hc.
      destruct r as [e|[d|]]; [discriminate| |discriminate].
      destruct Hc as [[Hr [_ [_ Hg1]]]|[[Hr|[e Hr]] _]]; try discriminate.
      injection Hr as ->. rewrite dict_update_single in H.
      assert (Hkeep : forall d0 k, dict_get d0 k = Some (word_score k) ->
                      dict_get (dict_set String.eqb d0 w (word_score w)) k =
                        Some (word_score k)).
      { intros d0 k Hk. destruct (String.eqb_spec k w) as [->|Hne].
        - apply dict_get_set_same.
        - rewrite dict_get_set_other by exact Hne. exact Hk. }
      destruct (IH _ _ _ _ H) as [Hall [Hres Hg']].
      split; [|split].
      + intros w' [<-|Hw'].
        * split; [apply Hres, dict_get_set_same|].
          apply Hg'. rewrite Hg1. simpl. apply dict_get_set_same.
        * apply Hall. exact Hw'.
      + intros k Hk. apply Hres, Hkeep, Hk.
      + intros k Hk. apply Hg'. rewrite Hg1. simpl. apply Hkeep, Hk. }
  intros w Hw.
  destruct (Hgen _ _ _ _ _ H) as [Hall _].
  exact (Hall w Hw).
Qed.

Lemma play_word_list_all_scored_witness :
  play_word_list cat_api ["cat"%string] (mkBoggleGame cats_board []) =
    (inr [("cat"%string, 5)], mkBoggleGame cats_board [("cat"%string, 5)]) /\
  (dict_get [("cat"%string, 5)] "cat" = Some (word_score "cat") /\
   dict_get (scored_words (mkBoggleGame cats_board [("cat"%string, 5)])) "cat" =
     Some (word_score "cat")).
Proof.
  assert (H : play_word_list cat_api ["cat"%string] (mkBoggleGame cats_board []) =
              (inr [("cat"%string, 5)], mkBoggleGame cats_board [("cat"%string, 5)]))
    by (vm_compute; reflexivity).
  split; [exact H|].
  exact (play_word_list_all_scored cat_api ["cat"%string] _ _ _ H "cat" (or_introl eq_refl)).
Defined.

Lemma play_words_app (api : string -> list json) : forall ws1 acc g r g1,
  play_words api ws1 acc g = (inr r, g1) ->
  forall rest, play_words api (ws1 ++ rest) acc g = play_words api rest r g1.
Proof.
  induction ws1 as [|w ws1 IH]; intros acc g r g1 H rest; simpl in *.
  - injection H as <- <-. reflexivity.
  - destruct (play_word api w g) as [[e|d] g2]; [discriminate|].
    destruct (dict_update acc d) as [e|acc']; [discriminate|].
    apply IH. exact H.
Qed.

(** A word that is not playable stops [play_word_list] with [TypeError]
    (from [dict.update(None)]); words scored before it stay in
    [scored_words]. *)
Theorem play_word_list_type_error (api : string -> list json) (ws1 ws2 : list string)
  (w : string) (g g1 : BoggleGame) (res1 : list (string * Z))
  (H1 : play_word_list api ws1 g = (inr res1, g1))
  (Hw : play_word api w g1 = (inr None, g1)) :
  play_word_list api (ws1 ++ w :: ws2) g = (inl TypeError, g1).
Proof.
  unfold play_word_list in *.
  rewrite (play_words_app api ws1 [] g res1 g1 H1). simpl.
  rewrite Hw. reflexivity.
Qed.

Lemma play_word_list_type_error_witness :
  play_word_list cat_api (["cat"%string] ++ "dog"%string :: ["cat"%string])
    (mkBoggleGame cats_board []) =
  (inl TypeError, mkBoggleGame cats_board [("cat"%string, 5)]).
Proof.
  apply (play_word_list_type_error cat_api ["cat"%string] ["cat"%string] "dog"
           (mkBoggleGame cats_board []) (mkBoggleGame cats_board [("cat"%string, 5)])
           [("cat"%string, 5)]); vm_compute; reflexivity.
Defined.

(** ** Scores *)

Lemma word_length_score_range (n : nat) :
  let s := match word_length_score n with
           | Some s => if s =? 0 then max_score else s
           | None => max_score
           end in
  2 <= s <= max_score /\
  ((n < 2)%nat \/ (5 < n)%nat -> s = max_score).
Proof.
  unfold max_score.
  destruct n as [|[|[|[|[|[|n]]]]]]; simpl; split; try lia; intros; try reflexivity; lia.
Qed.

Lemma word_score_bounds (w : string) : 2 <= word_score w <= max_score.
Proof. exact (proj1 (word_length_score_range (length (list_ascii_of_string w)))). Qed.

(** The score of a played word lies between 2 and [max_score]; a word of
    fewer than two or more than five letters scores [max_score] (a
    one-letter word scores as much as the longest words); among words of at
    least two letters a longer word never scores less. *)
Theorem word_score_range (w : string) :
  2 <= word_score w <= max_score /\
  ((length (list_ascii_of_string w) < 2)%nat \/ (5 < length (list_ascii_of_string w))%nat ->
   word_score w = max_score) /\
  (forall v, (2 <= length (list_ascii_of_string w) <= length (list_ascii_of_string v))%nat ->
   word_score w <= word_score v).
Proof.
  unfold word_score.
  destruct (word_length_score_range (length (list_ascii_of_string w))) as [Hr Hm].
  split; [exact Hr|]. split; [exact Hm|].
  intros v Hle.
  destruct (word_length_score_range (length (list_ascii_of_string v))) as [Hrv Hmv].
  revert Hle Hr Hm Hrv Hmv.
  generalize (length (list_ascii_of_string v)) as m.
  generalize (length (list_ascii_of_string w)) as n.
  unfold max_score.
  intros [|[|[|[|[|[|n]]]]]] [|[|[|[|[|[|m]]]]]]; simpl; intros; lia.
Qed.

Lemma dict_set_In {K V} (eqb : K -> K -> bool) (Heqb : forall a b, eqb a b = true -> a = b)
  (d : list (K * V)) (k : K) (v : V) (kv : K * V) :
  In kv (dict_set eqb d k v) -> In kv d \/ kv = (k, v).
Proof.
  unfold dict_set. destruct (existsb (fun kv => eqb (fst kv) k) d).
  - intros Hin. apply in_map_iff in Hin as [[k0 v0] [Heq Hin]]. simpl in Heq.
    destruct (eqb k0 k) eqn:E.
    + right. apply Heqb in E. subst. reflexivity.
    + left. subst. exact Hin.
  - intros Hin. apply in_app_or in Hin as [Hin|[Hin|[]]]; [left; exact Hin|right; auto].
Qed.

Lemma play_word_consistent (api : string -> list json) (w : string) (g g' : BoggleGame)
  (r : GRes (option (list (string * Z)))) :
  scores_consistent g -> play_word api w g = (r, g') -> scores_consistent g'.
Proof.
  intros Hc H.
  apply play_word_cases in H as [[_ [_ [_ ->]]]|[_ ->]]; [|exact Hc].
  unfold scores_consistent in *. cbn [scored_words].
  apply Forall_forall. intros kv Hin.
  apply dict_set_In in Hin as [Hin| ->].
  - rewrite Forall_forall in Hc. exact (Hc kv Hin).
  - reflexivity.
  - intros a b Hab. apply String.eqb_eq. exact Hab.
Qed.

Lemma play_words_consistent (api : string -> list json) : forall ws acc g r g',
  scores_consistent g -> play_words api ws acc g = (r, g') -> scores_consistent g'.
Proof.
  induction ws as [|w ws IH]; intros acc g r g' Hc H; simpl in H.
  - injection H as _ <-. exact Hc.
  - destruct (play_word api w g) as [[e|d] g1] eqn:Ep.
    + injection H as _ <-. exact (play_word_consistent _ _ _ _ _ Hc Ep).
    + destruct (dict_update acc d) as [e|acc'].
      * injection H as _ <-. exact (play_word_consistent _ _ _ _ _ Hc Ep).
      * exact (IH _ _ _ _ (play_word_consistent _ _ _ _ _ Hc Ep) H).
Qed.

(** Whatever [play_word_list] does, including stopping on an exception,
    every entry of [scored_words] keeps the score of its word; so
    [current_score] is the sum of the scores of [current_words], between
    2 and [max_score] per word. *)
Theorem play_word_list_scores_consistent (api : string -> list json) (ws : list string)
  (g g' : BoggleGame) (r : GRes (list (string * Z)))
  (Hc : scores_consistent g) (H : play_word_list api ws g = (r, g')) :
  scores_consistent g' /\
  current_score g' = fold_right (fun k acc => word_score k + acc) 0 (current_words g') /\
  2 * Z.of_nat (length (current_words g')) <= current_score g' <=
    max_score * Z.of_nat (length (current_words g')).
Proof.
  pose proof (play_words_consistent _ _ _ _ _ _ Hc H) as Hc'.
  split; [exact Hc'|].
  unfold scores_consistent, current_score, current_words in *.
  induction (scored_words g') as [|[k v] d IHd]; [simpl; lia|].
  inversion Hc' as [|? ? Hkv Hd]; subst. cbn [fst snd] in Hkv.
  destruct (IHd Hd) as [Hs Hb].
  cbn [map fold_right length fst snd]. rewrite Hs, Hkv.
  pose proof (word_score_bounds k). split; [reflexivity|]. lia.
Qed.

Lemma play_word_list_scores_consistent_witness :
  scores_consistent (mkBoggleGame cats_board []) /\
  (scores_consistent (mkBoggleGame cats_board [("cat"%string, 5)]) /\
   current_score (mkBoggleGame cats_board [("cat"%string, 5)]) =
     fold_right (fun k acc => word_score k + acc) 0
       (current_words (mkBoggleGame cats_board [("cat"%string, 5)])) /\
   2 * Z.of_nat (length (current_words (mkBoggleGame cats_board [("cat"%string, 5)]))) <=
     current_score (mkBoggleGame cats_board [("cat"%string, 5)]) <=
     max_score * Z.of_nat (length (current_words (mkBoggleGame cats_board [("cat"%string, 5)])))).
Proof.
  assert (Hc : scores_consistent (mkBoggleGame cats_board [])) by constructor.
  split; [exact Hc|].
  apply (play_word_list_scores_consistent cat_api ["cat"%string; "dog"%string]
           (mkBoggleGame cats_board []) _ (inl TypeError) Hc).
  vm_compute. reflexivity.
Defined.

(** ** The dictionary check *)

(** [is_playable_word] returns the dictionary lookup alone: its [str] and
    length checks are overwritten, so a one-letter word the dictionary
    lists is playable. *)
Theorem is_playable_word_is_dictionary_lookup (w : string) (r : list json) (c : ascii) :
  is_playable_word w r = is_in_dictionary w r /\
  is_playable_word (String c EmptyString)
    [meta_id_response (String c EmptyString)] = inr true.
Proof.
  split.
  - unfold is_playable_word. destruct (is_in_dictionary w r); reflexivity.
  - unfold is_playable_word, is_in_dictionary. cbn.
    rewrite Ascii.eqb_refl. reflexivity.
Qed.


(** An empty dictionary response makes [play_word] raise [IndexError] and
    leaves the game as it was. *)
Theorem play_word_empty_response (api : string -> list json) (w : string) (g : BoggleGame)
  (Hapi : api w = []) :
  play_word api w g = (inl (PyErr IndexError), g).
Proof. unfold play_word, is_playable_word. rewrite Hapi. reflexivity. Qed.

Lemma play_word_empty_response_witness :
  (fun _ : string => @nil json) "cat"%string = [] /\
  play_word (fun _ => []) "cat" (mkBoggleGame cats_board []) =
    (inl (PyErr IndexError), mkBoggleGame cats_board []).
Proof.
  split; [reflexivity|].
  apply (play_word_empty_response (fun _ => []) "cat" (mkBoggleGame cats_board [])).
  reflexivity.
Defined.

(** ** Words of length 0 and 1 *)




Lemma rss_single_letter (d : nat) (i j : Z) (bb : BoggleBoard) (c : ascii) :
  recursive_string_search (S d) i j (mkFrame bb [c]) = inl IndexError.
Proof. reflexivity. Qed.

Lemma recursion_limit_S : recursion_limit = S 999.
Proof. reflexivity. Qed.

Lemma check_word_one_letter (bb : BoggleBoard) (c : ascii) :
  check_word_on_board bb (String c EmptyString) =
    match positions_for_letter bb c with
    | [] => inr (Some false, bb)
    | _ :: _ => inl IndexError
    end.
Proof.
  unfold check_word_on_board, check_word_body. cbn [list_ascii_of_string].
  unfold bind at 1, index_front. cbn [frame_letters].
  unfold bind at 1, get_board. cbn [self_board].
  destruct (positions_for_letter bb c) as [|[i j] ps]; [reflexivity|].
  cbn [length Nat.eqb try_starts].
  unfold bind at 1. rewrite recursion_limit_S, rss_single_letter. reflexivity.
Qed.

(** On every board a one-letter word gives [False] when its letter is
    absent and raises [IndexError] when it is present (the first search
    step pops the only letter, then reads [letter_list[0]]). *)
Theorem one_letter_word_search (bb : BoggleBoard) (c : ascii) :
  check_word_on_board bb (String c EmptyString) =
    match positions_for_letter bb c with
    | [] => inr (Some false, bb)
    | _ :: _ => inl IndexError
    end.
Proof. apply check_word_one_letter. Qed.

(** So [play_word] raises [IndexError] on a one-letter word that the
    dictionary lists and whose letter is on the board; the game is left as
    it was. *)
Theorem play_word_one_letter_on_board (api : string -> list json) (g : BoggleGame)
  (c : ascii) (Hon : positions_for_letter (game_board g) c <> [])
  (Hdict : is_in_dictionary (String c EmptyString) (api (String c EmptyString)) = inr true) :
  play_word api (String c EmptyString) g = (inl (PyErr IndexError), g).
Proof.
  unfold play_word, is_playable_word. rewrite Hdict. cbv iota beta.
  rewrite check_word_one_letter.
  destruct (positions_for_letter (game_board g) c); [congruence|reflexivity].
Qed.

Lemma play_word_one_letter_on_board_witness :
  play_word (fun _ => [meta_id_response "a"]) "a" (mkBoggleGame cats_board []) =
    (inl (PyErr IndexError), mkBoggleGame cats_board []).
Proof.
  apply (play_word_one_letter_on_board (fun _ => [meta_id_response "a"])
           (mkBoggleGame cats_board []) "a"%char).
  - vm_compute. discriminate.
  - vm_compute. reflexivity.
Defined.

(** A word whose first letter is not on the board is answered [False]
    without any search. *)
Theorem check_word_first_letter_absent (bb : BoggleBoard) (c : ascii) (w : string)
  (Habs : positions_for_letter bb c = []) :
  check_word_on_board bb (String c w) = inr (Some false, bb).
Proof.
  unfold check_word_on_board, check_word_body. cbn [list_ascii_of_string].
  unfold bind at 1, index_front. cbn [frame_letters].
  unfold bind at 1, get_board. cbn [self_board].
  rewrite Habs. reflexivity.
Qed.

Lemma check_word_first_letter_absent_witness :
  positions_for_letter cats_board "z"%char = [] /\
  check_word_on_board cats_board "zoo" = inr (Some false, cats_board).
Proof.
  assert (H : positions_for_letter cats_board "z"%char = []) by (vm_compute; reflexivity).
  split; [exact H|].
  exact (check_word_first_letter_absent cats_board "z" "oo" H).
Defined.

(** ** What the search returns *)

Lemma rss_step (d : nat) (i j : Z) (bb : BoggleBoard) (c n : ascii) (w : list ascii) :
  recursive_string_search (S d) i j (mkFrame bb (c :: n :: w)) =
  match nearest_neighbor_data bb i j with
  | inl e => inl e
  | inr nn =>
      (if negb (existsb (fun l => Ascii.eqb l n) (map snd nn)) then ret (Some false)
       else
        (fix try_neighbors (items : list (pos * ascii)) : M PyBool :=
           match items with
           | [] => ret None
           | (t_pos, letter) :: rest =>
               if Ascii.eqb letter n then
                 k <- len_letters ;;
                 if (k =? 1)%nat then ret (Some true)
                 else recursive_string_search d (fst t_pos) (snd t_pos)
               else try_neighbors rest
           end) nn) (mkFrame bb (n :: w))
  end.
Proof.
  destruct (nearest_neighbor_data bb i j) as [e|nn] eqn:E.
  - cbn [recursive_string_search bind pop_front index_front get_board lift
       frame_letters self_board]. rewrite E. reflexivity.
  - cbn [recursive_string_search bind pop_front index_front get_board lift
       frame_letters self_board]. rewrite E.
    unfold bind at 1, lift. cbv beta iota. reflexivity.
Qed.

Lemma rss_empty (d : nat) (i j : Z) (bb : BoggleBoard) :
  recursive_string_search d i j (mkFrame bb []) = inl IndexError \/
  recursive_string_search d i j (mkFrame bb []) = inl RecursionError.
Proof. destruct d; [right|left]; reflexivity. Qed.

Lemma rss_never_none : forall d i j fr r fr',
  recursive_string_search d i j fr = inr (r, fr') -> r <> None.
Proof.
  induction d as [|d IH]; intros i j [bb l] r fr' H; [discriminate|].
  destruct l as [|c [|n w]].
  - destruct (rss_empty (S d) i j bb) as [E|E]; rewrite E in H; discriminate.
  - rewrite rss_single_letter in H; discriminate.
  - rewrite rss_step in H.
    destruct (nearest_neighbor_data bb i j) as [e|nn]; [discriminate|].
    destruct (existsb (fun l => Ascii.eqb l n) (map snd nn)) eqn:Ex; cbn [negb] in H.
    + clear -IH Ex H. revert Ex H. induction nn as [|[t letter] rest IHnn]; intros Ex H;
        [discriminate|].
      simpl in Ex. cbn in H.
      destruct (Ascii.eqb letter n) eqn:El.
      * unfold bind at 1, len_letters in H. cbn [frame_letters length] in H.
        destruct w as [|x w].
        -- injection H as <- _. discriminate.
        -- exact (IH _ _ _ _ _ H).
      * simpl in Ex. exact (IHnn Ex H).
    + unfold ret in H. injection H as <- _. discriminate.
Qed.

Lemma try_starts_not_none : forall starts status fr r fr',
  status <> None -> try_starts starts status fr = inr (r, fr') -> r <> None.
Proof.
  induction starts as [|[i j] rest IH]; intros status fr r fr' Hs H; cbn [try_starts] in H.
  - unfold ret in H. injection H as <- _. exact Hs.
  - unfold bind at 1 in H.
    destruct (recursive_string_search recursion_limit i j fr) as [e|[s fr1]] eqn:E;
      [discriminate|].
    pose proof (rss_never_none _ _ _ _ _ _ E) as Hs1.
    destruct (truthy s).
    + unfold ret in H. injection H as <- _. exact Hs1.
    + exact (IH _ _ _ _ Hs1 H).
Qed.

(** The search never reports Python's [None]: every normal return of
    [check_word_on_board] is [True] or [False], although the neighbor loop
    of [recursive_string_search] can fall through to [None]. *)
Theorem check_word_result_is_bool (bb bb' : BoggleBoard) (word : string) (r : PyBool)
  (H : check_word_on_board bb word = inr (r, bb')) :
  r = Some true \/ r = Some false.
Proof.
  unfold check_word_on_board in H.
  destruct (check_word_body (mkFrame bb (list_ascii_of_string word))) as [e|[r0 fr]] eqn:E;
    [discriminate|].
  injection H as -> _.
  assert (Hn : r <> None).
  { unfold check_word_body, bind at 1, index_front in E. cbn [frame_letters] in E.
    destruct (list_ascii_of_string word) as [|c w]; [discriminate|].
    unfold bind at 1, get_board in E. cbn [self_board] in E.
    destruct (length (positions_for_letter bb c) =? 0)%nat.
    - unfold ret in E. injection E as <- _. discriminate.
    - refine (try_starts_not_none _ _ _ _ _ _ E). discriminate. }
  destruct r as [[|]|]; auto. contradiction.
Qed.

Lemma check_word_result_is_bool_witness :
  check_word_on_board cats_board "cat" = inr (Some true, cats_board) /\
  (Some true = Some true \/ Some true = Some false).
Proof.
  assert (H : check_word_on_board cats_board "cat" = inr (Some true, cats_board))
    by (vm_compute; reflexivity).
  split; [exact H|].
  exact (check_word_result_is_bool cats_board cats_board "cat" (Some true) H).
Defined.

(** ** Soundness of one search chain *)

Lemma nn_fill_In (bb : BoggleBoard) : forall vs d nn p x,
  nn_fill bb d vs = inr nn -> In (p, x) nn ->
  In (p, x) d \/ (In p (somes vs) /\ get_letter_at_position bb (fst p) (snd p) = inr x).
Proof.
  induction vs as [|[q|] vs IH]; intros d nn p x H Hin; simpl in H.
  - injection H as <-. left. exact Hin.
  - destruct (get_letter_at_position bb (fst q) (snd q)) as [e|c] eqn:Eq; [discriminate|].
    simpl in H.
    destruct (IH _ _ _ _ H Hin) as [Hd|[Hs Hg]].
    + apply dict_set_In in Hd as [Hd|Hd].
      * left. exact Hd.
      * injection Hd as -> ->. right. split; [left; reflexivity|exact Eq].
      * intros a b Hab. apply pos_eqb_eq. exact Hab.
    + right. split; [right; exact Hs|exact Hg].
  - apply (IH _ _ _ _ H Hin).
Qed.

Lemma nearest_neighbor_data_In (bb : BoggleBoard) (i j : Z) (nn : list (pos * ascii))
  (p : pos) (x : ascii) :
  nearest_neighbor_data bb i j = inr nn -> In (p, x) nn ->
  In p (neighbor_positions (size bb) i j) /\
  get_letter_at_position bb (fst p) (snd p) = inr x.
Proof.
  intros H Hin. destruct (nn_fill_In _ _ _ _ _ _ H Hin) as [[]|Hp]. exact Hp.
Qed.

Lemma letter_is_neighbor (bb : BoggleBoard) (i j : Z) (c : ascii) (q : pos) (x : ascii) :
  letter_is bb (i, j) c = true ->
  In q (neighbor_positions (size bb) i j) ->
  get_letter_at_position bb (fst q) (snd q) = inr x ->
  letter_is bb q x = true /\ existsb (pos_eqb q) (neighbor_positions (size bb) i j) = true.
Proof.
  intros Hl Hq Hg. unfold letter_is, in_bounds in Hl. simpl in Hl.
  rewrite !andb_true_iff, !Z.leb_le, !Z.ltb_lt in Hl.
  destruct Hl as [[[[Hi1 Hi2] Hj1] Hj2] _].
  destruct (neighbor_positions_in_bounds (size bb) i j q) as [Ha Hb]; try lia; [exact Hq|].
  split.
  - unfold letter_is, in_bounds. rewrite Hg, Ascii.eqb_refl.
    destruct Ha, Hb. rewrite (proj2 (Z.leb_le _ _)), (proj2 (Z.ltb_lt _ _)),
      (proj2 (Z.leb_le _ _)), (proj2 (Z.ltb_lt _ _)) by assumption. reflexivity.
  - apply existsb_exists. exists q. split; [exact Hq|]. apply pos_eqb_eq. reflexivity.
Qed.

(** One call of [recursive_string_search] on a fresh letter list is sound:
    started on a cell holding the first letter, a [True] answer comes with
    a trace of the word from that cell (cells may repeat).  The false
    positives of [check_word_on_board] come only from reusing the popped
    list at a later start position. *)
Theorem rss_sound : forall d i j bb c w r fr',
  letter_is bb (i, j) c = true ->
  recursive_string_search d i j (mkFrame bb (c :: w)) = inr (r, fr') ->
  r = Some true ->
  exists path, hd_error path = Some (i, j) /\ is_trace bb (c :: w) path = true.
Proof.
  induction d as [|d IH]; intros i j bb c w r fr' Hl H Hr; [discriminate|].
  destruct w as [|n w]; [rewrite rss_single_letter in H; discriminate|].
  rewrite rss_step in H.
  destruct (nearest_neighbor_data bb i j) as [e|nn] eqn:Enn; [discriminate|].
  destruct (existsb (fun l => Ascii.eqb l n) (map snd nn)) eqn:Ex; cbn [negb] in H.
  2: { unfold ret in H. injection H as <- _. discriminate. }
  assert (Hsub : forall t x, In (t, x) nn -> In (t, x) nn) by auto.
  revert Hsub H. generalize nn at 1 3 as items.
  induction items as [|[[a b] letter] rest IHi]; intros Hsub H;
    [unfold ret in H; injection H as <- _; discriminate|].
  cbn in H.
  destruct (Ascii.eqb letter n) eqn:El.
  - apply Ascii.eqb_eq in El. subst letter.
    destruct (nearest_neighbor_data_In _ _ _ _ _ _ Enn (Hsub _ _ (or_introl eq_refl)))
      as [Hq Hg].
    destruct (letter_is_neighbor _ _ _ _ _ _ Hl Hq Hg) as [Hlq Hadj].
    unfold bind at 1, len_letters in H. cbn [frame_letters length] in H.
    destruct w as [|x w].
    + exists [(i, j); (a, b)]. split; [reflexivity|].
      cbn [is_trace fst snd]. rewrite Hl, Hadj, Hlq. reflexivity.
    + cbn [fst snd] in H.
      destruct (IH _ _ _ _ _ _ _ Hlq H Hr) as [path [Hhd Htr]].
      destruct path as [|q path]; [discriminate|]. injection Hhd as ->.
      exists ((i, j) :: (a, b) :: path). split; [reflexivity|].
      change (is_trace bb (c :: n :: x :: w) ((i, j) :: (a, b) :: path)) with
        (letter_is bb (i, j) c
         && existsb (pos_eqb (a, b)) (neighbor_positions (size bb) (fst (i, j)) (snd (i, j)))
         && is_trace bb (n :: x :: w) ((a, b) :: path)).
      rewrite Hl, Htr. cbn [fst snd]. rewrite Hadj. reflexivity.
  - apply IHi; [|exact H]. intros t0 x0 Hin. apply Hsub. right. exact Hin.
Qed.

Lemma rss_sound_witness :
  exists path, hd_error path = Some (0, 0) /\
               is_trace cats_board ["c";"a";"t"]%char path = true.
Proof.
  apply (rss_sound 5 0 0 cats_board "c" ["a";"t"]%char (Some true)
           (mkFrame cats_board ["t"]%char)).
  - vm_compute. reflexivity.
  - vm_compute. reflexivity.
  - reflexivity.
Defined.

(** ** Neighbors *)

Lemma neighbor_positions_char (N i j a b : Z) (Hi : 0 <= i < N) (Hj : 0 <= j < N) :
  In (a, b) (neighbor_positions N i j) <->
  (0 <= a < N /\ 0 <= b < N) /\ (a, b) <> (i, j) /\ Z.abs (a - i) <= 1 /\ Z.abs (b - j) <= 1.
Proof.
  split.
  - neighbor_guards i j N; intros Hin;
      repeat (destruct Hin as [Hin|Hin]); try contradiction;
      injection Hin as <- <-; (split; [lia|split; [intros Heq; injection Heq; lia|lia]]).
  - intros [[Ha Hb] [Hne [Hda Hdb]]].
    assert (Ha' : a = i - 1 \/ a = i \/ a = i + 1) by lia.
    assert (Hb' : b = j - 1 \/ b = j \/ b = j + 1) by lia.
    neighbor_guards i j N;
    destruct Ha' as [Ea|[Ea|Ea]]; destruct Hb' as [Eb|[Eb|Eb]]; subst a b;
      try (exfalso; apply Hne; reflexivity); try lia;
      repeat (first [left; reflexivity | right]).
Qed.

(** The neighbors [build_neighbor_map] gives an in-bounds cell are exactly
    the other in-bounds cells at most one row and one column away; hence
    adjacency is symmetric. *)
Theorem neighbor_positions_iff (N i j a b : Z) (Hi : 0 <= i < N) (Hj : 0 <= j < N) :
  (In (a, b) (neighbor_positions N i j) <->
   (0 <= a < N /\ 0 <= b < N) /\ (a, b) <> (i, j) /\
   Z.abs (a - i) <= 1 /\ Z.abs (b - j) <= 1) /\
  (In (a, b) (neighbor_positions N i j) -> In (i, j) (neighbor_positions N a b)).
Proof.
  split; [apply neighbor_positions_char; assumption|].
  intros Hin. apply neighbor_positions_char in Hin as [[Ha Hb] [Hne [Hda Hdb]]];
    [|assumption|assumption].
  apply neighbor_positions_char; [exact Ha|exact Hb|].
  split; [lia|]. split; [intros Heq; apply Hne; injection Heq as -> ->; reflexivity|].
  split; lia.
Qed.

Lemma neighbor_positions_iff_witness :
  0 <= 0 < 4 /\ 0 <= 0 < 4 /\
  ((In (1, 1) (neighbor_positions 4 0 0) <->
    (0 <= 1 < 4 /\ 0 <= 1 < 4) /\ (1, 1) <> (0, 0) /\
    Z.abs (1 - 0) <= 1 /\ Z.abs (1 - 0) <= 1) /\
   (In (1, 1) (neighbor_positions 4 0 0) -> In (0, 0) (neighbor_positions 4 1 1))).
Proof.
  split; [lia|]. split; [lia|].
  apply (neighbor_positions_iff 4 0 0 1 1); lia.
Defined.

(** ** get_letter_at_position *)



(** ** show *)

Lemma string_length_append (s1 s2 : string) :
  String.length (String.append s1 s2) = (String.length s1 + String.length s2)%nat.
Proof. induction s1 as [|c s1 IH]; simpl; [reflexivity|]. rewrite IH. reflexivity. Qed.

Lemma str_repeat_length (s : string) (n : nat) :
  String.length (str_repeat s n) = (n * String.length s)%nat.
Proof.
  induction n as [|n IH]; simpl; [reflexivity|].
  rewrite string_length_append, IH. reflexivity.
Qed.

Lemma row_chars_length (row : list ascii) :
  String.length (row_chars row) = (3 * length row)%nat.
Proof.
  induction row as [|c row IH]; simpl; [reflexivity|].
  rewrite IH. lia.
Qed.

(** [show] prints one line per board row between two borders, and every
    line, border or row, is [3*size + 4] characters wide when each row
    has [size] letters. *)
Theorem show_line_widths (bb : BoggleBoard) (Hsz : 0 <= size bb)
  (Hcols : Forall (fun row => length row = Z.to_nat (size bb)) (board bb)) :
  length (show bb) = (length (board bb) + 2)%nat /\
  Forall (fun line => String.length line = Z.to_nat (3 * size bb + 4)) (show bb).
Proof.
  unfold show. split.
  - rewrite !length_app, List.length_map. simpl. lia.
  - apply Forall_app. split; [|apply Forall_app; split].
    + constructor; [|constructor]. rewrite str_repeat_length. simpl. lia.
    + apply Forall_map. eapply Forall_impl; [|exact Hcols]. intros row Hrow.
      unfold show_row. rewrite !string_length_append, row_chars_length, Hrow.
      change (String.length "| ") with 2%nat. change (String.length " |") with 2%nat. lia.
    + constructor; [|constructor]. rewrite str_repeat_length. simpl. lia.
Qed.

Lemma show_line_widths_witness :
  length (show cats_board) = (length (board cats_board) + 2)%nat /\
  Forall (fun line => String.length line = Z.to_nat (3 * size cats_board + 4)) (show cats_board).
Proof.
  apply show_line_widths; [change (size cats_board) with 4; lia|].
  vm_compute. repeat constructor.
Defined.

(** ** BoggleBoard construction: random boards, edge sizes, round trip *)

(** With a [letters] argument the random draw is never used: the empty
    string, the only value that would reach it, is refused by [isalpha]. *)
Theorem BoggleBoard_init_letters_ignore_choice (sa : option SizeArg) (s : string)
  (choice1 choice2 : nat -> ascii) :
  BoggleBoard_init sa (Some s) choice1 = BoggleBoard_init sa (Some s) choice2.
Proof.
  destruct s as [|c s']; reflexivity.
Qed.

Lemma square_nat (z : Z) : 0 <= z -> Z.to_nat (z ^ 2) = (Z.to_nat z * Z.to_nat z)%nat.
Proof. intros Hz. rewrite Z.pow_2_r, Z2Nat.inj_mul; lia. Qed.

(** Without [letters], the default size is 5 and a board of size [z >= 1]
    holds [z*z] random draws, cut into [z] rows of [z] letters in draw
    order. *)
Theorem BoggleBoard_init_random (z : Z) (choice : nat -> ascii) (Hz : 1 <= z) :
  (forall la, BoggleBoard_init None la choice = BoggleBoard_init (Some (SizeInt 5)) la choice) /\
  exists bb, BoggleBoard_init (Some (SizeInt z)) None choice = inr bb /\
    size bb = z /\
    letter_list bb = map choice (seq 0 (Z.to_nat z * Z.to_nat z)) /\
    letters bb = string_of_list_ascii (letter_list bb) /\
    length (board bb) = Z.to_nat z /\
    Forall (fun row => length row = Z.to_nat z) (board bb) /\
    concat (board bb) = letter_list bb.
Proof.
  split; [reflexivity|].
  set (n := Z.to_nat z).
  assert (Hzn : z = Z.of_nat n) by (unfold n; lia).
  set (ll := map choice (seq 0 (n * n))).
  assert (Hl : length ll = (n * n)%nat)
    by (unfold ll; rewrite List.length_map, length_seq; reflexivity).
  destruct (chunks_spec n n ll Hl) as [Hc Hf].
  exists (mkBoggleBoard z ll (map (fun k => firstn n (skipn (k * n) ll)) (seq 0 n))
                        (string_of_list_ascii ll)).
  split.
  - unfold BoggleBoard_init. cbn [res_bind build_letter_list].
    rewrite (square_nat z) by lia. fold n. fold ll.
    replace (build_board z ll) with (build_board (Z.of_nat n) ll)
      by (rewrite <- Hzn; reflexivity).
    rewrite (build_board_square n ll) by (lia || exact Hl).
    reflexivity.
  - cbn [size letter_list letters board]. repeat split; try reflexivity.
    + rewrite List.length_map, length_seq. reflexivity.
    + exact Hf.
    + exact Hc.
Qed.

Lemma BoggleBoard_init_random_witness :
  (forall la, BoggleBoard_init None la (fun _ => "e"%char) =
              BoggleBoard_init (Some (SizeInt 5)) la (fun _ => "e"%char)) /\
  exists bb, BoggleBoard_init (Some (SizeInt 2)) None (fun _ => "e"%char) = inr bb /\
    size bb = 2 /\
    letter_list bb = map (fun _ => "e"%char) (seq 0 (Z.to_nat 2 * Z.to_nat 2)) /\
    letters bb = string_of_list_ascii (letter_list bb) /\
    length (board bb) = Z.to_nat 2 /\
    Forall (fun row => length row = Z.to_nat 2) (board bb) /\
    concat (board bb) = letter_list bb.
Proof. apply BoggleBoard_init_random. lia. Defined.

(** Without [letters], size 0 raises [ValueError] ([range] with step 0),
    and a negative size gives a board with no rows that still draws
    [size**2] letters. *)
Theorem BoggleBoard_init_degenerate_sizes (z : Z) (choice : nat -> ascii) (Hz : z < 0) :
  BoggleBoard_init (Some (SizeInt 0)) None choice = inl ValueError /\
  exists bb, BoggleBoard_init (Some (SizeInt z)) None choice = inr bb /\
    board bb = [] /\ (0 < length (letter_list bb))%nat /\
    Z.of_nat (length (letter_list bb)) = z ^ 2.
Proof.
  split; [reflexivity|].
  set (ll := map choice (seq 0 (Z.to_nat (z ^ 2)))).
  exists (mkBoggleBoard z ll [] (string_of_list_ascii ll)).
  assert (Hl : Z.of_nat (length ll) = z ^ 2).
  { unfold ll. rewrite List.length_map, length_seq. apply Z2Nat.id. rewrite Z.pow_2_r. nia. }
  split.
  - unfold BoggleBoard_init, build_board, py_range0. cbn [res_bind build_letter_list]. fold ll.
    replace (z =? 0) with false by (symmetry; apply Z.eqb_neq; lia).
    replace (z <? 0) with true by (symmetry; apply Z.ltb_lt; lia).
    reflexivity.
  - cbn [board letter_list]. split; [reflexivity|]. split; [|exact Hl].
    rewrite Z.pow_2_r in Hl. nia.
Qed.

Lemma BoggleBoard_init_degenerate_sizes_witness :
  BoggleBoard_init (Some (SizeInt 0)) None (fun _ => "e"%char) = inl ValueError /\
  exists bb, BoggleBoard_init (Some (SizeInt (-2))) None (fun _ => "e"%char) = inr bb /\
    board bb = [] /\ (0 < length (letter_list bb))%nat /\
    Z.of_nat (length (letter_list bb)) = (-2) ^ 2.
Proof. apply BoggleBoard_init_degenerate_sizes. lia. Defined.

Lemma res_bind_inr {A B} (r : Res A) (k : A -> Res B) (x : B) :
  res_bind r k = inr x -> exists a, r = inr a /\ k a = inr x.
Proof. destruct r as [e|a]; [discriminate|]. intros H. exists a. auto. Qed.

Lemma BoggleBoard_init_shape (z : Z) (la : option string) (choice : nat -> ascii)
  (bb : BoggleBoard) :
  BoggleBoard_init (Some (SizeInt z)) la choice = inr bb ->
  size bb = z /\ letters bb = string_of_list_ascii (letter_list bb) /\
  build_board z (letter_list bb) = inr (board bb) /\
  Z.of_nat (length (letter_list bb)) = z ^ 2.
Proof.
  unfold BoggleBoard_init. cbn [res_bind]. intros H.
  apply res_bind_inr in H as [u [Hu H]].
  apply res_bind_inr in H as [b [Eb H]].
  injection H as <-. cbn [size letters letter_list board].
  split; [reflexivity|]. split; [reflexivity|]. split; [exact Eb|].
  destruct la as [s|].
  - destruct (negb (py_isalpha s)) eqn:Ea; [discriminate|].
    destruct (negb (Z.of_nat (length (list_ascii_of_string s)) =? z ^ 2)) eqn:El;
      [discriminate|].
    apply negb_false_iff, Z.eqb_eq in El.
    unfold build_letter_list. destruct s as [|c s']; [discriminate|exact El].
  - unfold build_letter_list. rewrite List.length_map, length_seq. apply Z2Nat.id.
    rewrite Z.pow_2_r. nia.
Qed.

(** A board of size [z >= 1] whose letters are alphabetic is rebuilt
    unchanged by [BoggleBoard(letters=board.letters, size=z)]. *)
Theorem BoggleBoard_init_round_trip (z : Z) (la : option string) (choice choice' : nat -> ascii)
  (bb : BoggleBoard) (Hz : 1 <= z)
  (H : BoggleBoard_init (Some (SizeInt z)) la choice = inr bb)
  (Halpha : forallb is_alpha_char (letter_list bb) = true) :
  BoggleBoard_init (Some (SizeInt z)) (Some (letters bb)) choice' = inr bb.
Proof.
  destruct (BoggleBoard_init_shape _ _ _ _ H) as [Hs [Hlt [Hb Hl]]].
  destruct bb as [sz ll b lt]; cbn [size letters letter_list board] in *. subst sz lt.
  destruct ll as [|c ll'].
  { cbn [length] in Hl. rewrite Z.pow_2_r in Hl. nia. }
  unfold BoggleBoard_init, py_isalpha. cbn [res_bind].
  rewrite list_ascii_of_string_of_list_ascii, Halpha, Hl, Z.eqb_refl. cbn [negb res_bind].
  unfold build_letter_list.
  change (string_of_list_ascii (c :: ll')) with (String c (string_of_list_ascii ll')).
  cbn [String.eqb negb].
  change (String c (string_of_list_ascii ll')) with (string_of_list_ascii (c :: ll')).
  rewrite list_ascii_of_string_of_list_ascii, Hb. reflexivity.
Qed.

Lemma BoggleBoard_init_round_trip_witness :
  BoggleBoard_init (Some (SizeInt 2)) None (fun _ => "e"%char) =
    inr (mkBoggleBoard 2 ["e";"e";"e";"e"]%char [["e";"e"];["e";"e"]]%char "eeee") /\
  BoggleBoard_init (Some (SizeInt 2)) (Some "eeee"%string) (fun _ => "z"%char) =
    inr (mkBoggleBoard 2 ["e";"e";"e";"e"]%char [["e";"e"];["e";"e"]]%char "eeee").
Proof.
  assert (H : BoggleBoard_init (Some (SizeInt 2)) None (fun _ => "e"%char) =
              inr (mkBoggleBoard 2 ["e";"e";"e";"e"]%char [["e";"e"];["e";"e"]]%char "eeee"))
    by (vm_compute; reflexivity).
  split; [exact H|].
  exact (BoggleBoard_init_round_trip 2 None (fun _ => "e"%char) (fun _ => "z"%char) _
           ltac:(lia) H eq_refl).
Defined.
